(** * rest_navigator: a shallow embedding of the HAL navigator

    The development follows the two source files of the repository:

    - [src/restnavigator/utils.py]: [fix_scheme], [normalize_getitem_args]
      and the curie-aware [LinkDict] (module [utils]);
    - [src/rest_navigator/halnav.py]: the [HALNavigator] proxy with its
      identity map, lazy fetch, template expansion, subselection and
      iteration (module [halnav]).

    Python objects that are shared and mutated (navigators, the identity
    map, the dicts and lists of a fetched document) live in an explicit
    store; every method is a function in a state-and-exception monad over
    that store. *)

From Stdlib Require Import ZArith String Ascii List Bool Lia.
From stdpp Require Import base option list strings gmap pretty.

Set Warnings "-register-all".

Local Open Scope string_scope.
Local Open Scope list_scope.
Local Open Scope Z_scope.

(** ** Python values *)

(** Immutable scalars: [None], booleans, integers and strings. *)
Inductive atom :=
| ANone
| ABool (b : bool)
| AInt (z : Z)
| AStr (s : string).

#[global] Instance atom_eq_dec : EqDecision atom.
Proof. solve_decision. Defined.

(** A parsed JSON document ([response.json()]): scalars, lists and dicts.
    A dict is kept as the list of its items in iteration order. *)
Inductive json :=
| JAtom (a : atom)
| JList (l : list json)
| JDict (d : list (string * json)).

(** Python's [v == 0]: true for the integer zero and for [False]. *)
Definition eq_zero (v : atom) : bool :=
  match v with
  | AInt z => Z.eqb z 0
  | ABool b => negb b
  | _ => false
  end.

(** Python's truth value of a scalar ([if value:]). *)
Definition truthy (v : atom) : bool :=
  match v with
  | ANone => false
  | ABool b => b
  | AInt z => negb (Z.eqb z 0)
  | AStr s => negb (String.eqb s "")
  end.

(** [str(v)] for a scalar. *)
Definition py_str (v : atom) : string :=
  match v with
  | ANone => "None"
  | ABool true => "True"
  | ABool false => "False"
  | AInt z => pretty z
  | AStr s => s
  end.

(** Truth value of a JSON value (empty containers are false). *)
Definition json_truthy (j : json) : bool :=
  match j with
  | JAtom a => truthy a
  | JList l => match l with [] => false | _ => true end
  | JDict d => match d with [] => false | _ => true end
  end.

(** [d.get(k)] on the item list of a dict. *)
Fixpoint assoc {A} (k : string) (d : list (string * A)) : option A :=
  match d with
  | [] => None
  | (k', v) :: d' => if String.eqb k k' then Some v else assoc k d'
  end.

(** ** Strings *)

(** [sub in s] for Python strings. *)
Fixpoint str_contains (sub s : string) : bool :=
  String.prefix sub s ||
  match s with
  | EmptyString => false
  | String _ s' => str_contains sub s'
  end.

(** [s.split(sep)] for a non-empty separator: [skip] counts the characters
    of a separator that was just recognised and still has to be dropped,
    [cur] is the piece read so far. *)
Fixpoint split_go (sep : string) (skip : nat) (cur s : string) : list string :=
  match s with
  | EmptyString => [cur]
  | String c s' =>
      match skip with
      | S k => split_go sep k cur s'
      | O =>
          if String.prefix sep s
          then cur :: split_go sep (String.length sep - 1) "" s'
          else split_go sep O (cur +:+ String c "") s'
      end
  end.

Definition str_split (sep s : string) : list string := split_go sep O "" s.

Definition str_join (sep : string) (l : list string) : string :=
  String.concat sep l.

(** Exceptions raised by the modelled code.  [NotHAL] stands for whatever
    Python does on a document outside the modelled HAL shape, and
    [DanglingReference] for the use of a reference that the store does not
    hold, which no Python program can produce. *)
Inductive exn :=
| AmbiguousNavigationError
| WileECoyoteException
| ZachMorrisException
| TypeError (msg : string)
| SyntaxError (msg : string)
| KeyError (key : string)
| StopIteration
| IndexError
| AttributeError
| RequestException (uri : string)
| NotHAL
| DanglingReference.

#[global] Instance exn_eq_dec : EqDecision exn.
Proof. solve_decision. Defined.

(** ** The uritemplate library *)

Module uritemplate.

(** [uritemplate] is a third-party library that is not part of the
    repository.  The spec and the comment in [HALNavigator.expand] say how
    it treats a falsy value; the rest of this module follows RFC 6570 for
    scalar values, without the explode, prefix and default modifiers (a
    variable specification is taken as the variable's name). *)

Definition OPERATOR : string := "+#./;?&".
Definition RESERVED : string := ":/?#[]@!$&'()*+,;=".
Definition always_safe : string :=
  "ABCDEFGHIJKLMNOPQRSTUVWXYZabcdefghijklmnopqrstuvwxyz0123456789_.-".

Definition char_in (c : ascii) (s : string) : bool :=
  str_contains (String c "") s.

Definition hex_digit (n : N) : ascii :=
  match String.get (N.to_nat n) "0123456789ABCDEF" with
  | Some c => c
  | None => "0"%char
  end.

(** [urllib.quote]: every byte outside the safe set becomes [%XX]. *)
Definition quote_char (safe : string) (c : ascii) : string :=
  if char_in c always_safe || char_in c safe then String c ""
  else
    let n := N_of_ascii c in
    String "%" (String (hex_digit (N.div n 16)) (String (hex_digit (N.modulo n 16)) "")).

Fixpoint quote (safe s : string) : string :=
  match s with
  | EmptyString => ""
  | String c s' => quote_char safe c +:+ quote safe s'
  end.

(** How one variable prints under each operator; [None] when the variable
    contributes nothing. *)
Definition tostring (operator : string) (varname : string) (value : atom)
  : option string :=
  let safe := if String.eqb operator "+" || String.eqb operator "#"
              then RESERVED else "" in
  match value with
  | ANone => None
  | _ =>
      let q := quote safe (py_str value) in
      if String.eqb operator "?" || String.eqb operator "&" then
        Some (if truthy value then varname +:+ "=" +:+ q else varname +:+ "=")
      else if String.eqb operator ";" then
        Some (if truthy value then varname +:+ "=" +:+ q else varname)
      else Some q
  end.

Definition split_operator (expression : string) : string * string :=
  match expression with
  | String c rest =>
      if char_in c OPERATOR then (String c "", rest) else ("", expression)
  | EmptyString => ("", "")
  end.

Definition start_of (operator : string) : string :=
  if String.eqb operator "+" then "" else operator.

Definition joiner_of (operator : string) : string :=
  if String.eqb operator "+" || String.eqb operator "#" || String.eqb operator ""
  then ","
  else if String.eqb operator "?" then "&"
  else operator.

(** Expansion of one [{...}] expression. *)
Definition expand_expression (variables : gmap string atom) (expression : string)
  : string :=
  let '(operator, varlist) := split_operator expression in
  let retval :=
    omap (fun varname =>
            match variables !! varname with
            | Some value => tostring operator varname value
            | None => None
            end)
         (str_split "," varlist) in
  match retval with
  | [] => ""
  | _ => start_of operator +:+ str_join (joiner_of operator) retval
  end.

(** The scanner behind the substitution of every [{...}]: [pending] holds
    the text read since an opening brace that is not closed yet. *)
Fixpoint scan (on_expr : string -> string) (pending : option string) (s : string)
  : string :=
  match s, pending with
  | EmptyString, None => ""
  | EmptyString, Some e => "{" +:+ e
  | String c s', None =>
      if Ascii.eqb c "{" then scan on_expr (Some "") s'
      else String c (scan on_expr None s')
  | String c s', Some e =>
      if Ascii.eqb c "}" then
        (if String.eqb e "" then "{}" else on_expr e) +:+ scan on_expr None s'
      else scan on_expr (Some (e +:+ String c "")) s'
  end.

(** Modelled from the spec: [uritemplate.expand] is not among the sources.
    Every [{...}] of the template is replaced by the expansion of its
    variables; a falsy value such as the number 0 expands to nothing after
    the [=] of a query parameter. *)
Definition expand (template : string) (variables : gmap string atom) : string :=
  scan (expand_expression variables) None template.

(** The names collected by [variables(template)]. *)
Fixpoint scan_names (pending : option string) (s : string) : list string :=
  match s, pending with
  | EmptyString, _ => []
  | String c s', None =>
      if Ascii.eqb c "{" then scan_names (Some "") s' else scan_names None s'
  | String c s', Some e =>
      if Ascii.eqb c "}" then
        (if String.eqb e "" then [] else str_split "," (snd (split_operator e)))
          ++ scan_names None s'
      else scan_names (Some (e +:+ String c "")) s'
  end.

(** Modelled from the spec: [uritemplate.variables] is not among the
    sources; it gives the names of the variables of a template. *)
Definition variables (template : string) : gset string :=
  list_to_set (scan_names None template).

End uritemplate.

(** ** restnavigator/utils.py *)

Module utils.

(** [fix_scheme(url)]: prepends [http://] when the url has no scheme and
    rejects a scheme other than http or https, or more than one. *)
Definition fix_scheme (url : string) : exn + string :=
  let splitted := str_split "://" url in
  match splitted with
  | [s0; _] =>
      if String.eqb s0 "http" || String.eqb s0 "https" then inr url
      else inl WileECoyoteException
  | [_] => inr ("http://" +:+ url)
  | _ => inl ZachMorrisException
  end.

(** What may stand between the brackets of [N[...]]: a string, an integer,
    a slice [start:stop], the [Ellipsis] object or an object of another
    type (given by the name of its type). *)
Inductive bracket :=
| BStr (s : string)
| BInt (z : Z)
| BSlice (start stop : atom)
| BEllipsis
| BObj (type_name : string).

(** The entries of the list [normalize_getitem_args] returns. *)
Inductive normalized :=
| NStr (s : string)
| NInt (z : Z)
| NPair (start stop : atom).

Definition type_name_of (arg : bracket) : string :=
  match arg with
  | BStr _ => "str"
  | BInt _ => "int"
  | BSlice _ _ => "slice"
  | BEllipsis => "ellipsis"
  | BObj n => n
  end.

(** [normalize_getitem_args(args)] of restnavigator/utils.py; [args] is the
    tuple between the brackets (a single object is a one-element tuple). *)
Fixpoint normalize_getitem_args (args : list bracket) : exn + list normalized :=
  match args with
  | [] => inr []
  | arg :: rest =>
      match
        match arg with
        | BStr s => inr (NStr s)
        | BInt z => inr (NInt z)
        | BSlice start stop => inr (NPair start stop)
        | _ => inl (TypeError ("Brackets cannot contain objects of type "
                                 +:+ type_name_of arg))
        end
      with
      | inl e => inl e
      | inr v =>
          match normalize_getitem_args rest with
          | inl e => inl e
          | inr vs => inr (v :: vs)
          end
      end
  end.

(** [LinkDict]: a dict with a default curie. *)
Record LinkDict (V : Type) := mkLinkDict {
  default_curie : option string;
  entries : gmap string V;
}.
Arguments mkLinkDict {V}.
Arguments default_curie {V}.
Arguments entries {V}.

(** [dict.__getitem__]: the lookup of the key as it is. *)
Definition dict_getitem {V} (d : gmap string V) (key : string) : exn + V :=
  match d !! key with
  | Some v => inr v
  | None => inl (KeyError key)
  end.

Section LinkDict.
Context {V : Type}.
(** [registry.iana_rels], the table of the standard relation names, is
    not among the sources: the lookup is stated for any table. *)
Variable iana_rels : gset string.

Definition implicit_key (curie key : string) : string :=
  curie +:+ ":" +:+ key.

(** [LinkDict.__getitem__]. *)
Definition LinkDict_getitem (self : LinkDict V) (key : string) : exn + V :=
  if str_contains ":" key
     || (bool_decide (key ∈ dom (entries self)) && bool_decide (key ∈ iana_rels))
     || bool_decide (default_curie self = None)
  then dict_getitem (entries self) key
  else
    match default_curie self with
    | Some curie => dict_getitem (entries self) (implicit_key curie key)
    | None => dict_getitem (entries self) key
    end.
End LinkDict.

(** Modelled from the spec: [registry.iana_rels] is not among the sources;
    these are a few of the standard relation names it stands for (the spec
    names [next] and [self]). *)
Definition some_iana_rels : gset string :=
  list_to_set ["self"; "next"; "prev"; "first"; "last"; "item"; "collection"].

End utils.

(** ** The link collection of restnavigator/utils.py *)

Module linklist.

(** [LinkList.serialize], that is [unicode]: the text of a scalar. *)
Definition serialize (val : atom) : string := py_str val.

(** A [LinkList]: the elements of the list, and [_meta], which maps a
    property name and a serialized value to the objects recorded with
    them. *)
Record LinkList (A : Type) := mkLinkList {
  elems : list A;
  _meta : gmap string (gmap string (list A));
}.
Arguments mkLinkList {A}.
Arguments elems {A}.
Arguments _meta {A}.

Section LinkList.
Context {A : Type}.

(** [self._meta.setdefault(prop, {}).setdefault(val, []).append(obj)], as
    the new dict of the property. *)
Definition record_under (obj : A) (val : atom)
  (inner : option (gmap string (list A))) : gmap string (list A) :=
  let d := default ∅ inner in
  <[serialize val := default [] (d !! serialize val) ++ [obj]]> d.

(** [LinkList.append_with(obj, **properties)]: the loop runs once for each
    property, and each run touches the dict of its own property only. *)
Definition append_with (self : LinkList A) (obj : A)
  (properties : gmap string atom) : LinkList A :=
  mkLinkList
    (elems self ++ [obj])
    (merge (fun val inner =>
              match val with
              | Some v => Some (record_under obj v inner)
              | None => inner
              end)
           properties (_meta self)).

(** [LinkList.__init__(items)]. *)
Definition __init__ (items : list (A * gmap string atom)) : LinkList A :=
  fold_left (fun self item => append_with self item.1 item.2) items
            (mkLinkList [] ∅).

(** [self._meta[prop][val][0]] with the exceptions it may raise. *)
Definition first_recorded (self : LinkList A) (prop val : string) : exn + A :=
  match _meta self !! prop with
  | None => inl (KeyError prop)
  | Some inner =>
      match inner !! val with
      | None => inl (KeyError val)
      | Some [] => inl IndexError
      | Some (obj :: _) => inr obj
      end
  end.

(** [LinkList.get_by(prop, val, raise_exc)]. *)
Definition get_by (self : LinkList A) (prop : string) (val : atom)
  (raise_exc : bool) : exn + option A :=
  match first_recorded self prop (serialize val) with
  | inr obj => inr (Some obj)
  | inl (KeyError k) => if raise_exc then inl (KeyError k) else inr None
  | inl IndexError => if raise_exc then inl IndexError else inr None
  | inl e => inl e
  end.

(** [LinkList.getall_by(prop, val)]. *)
Definition getall_by (self : LinkList A) (prop : string) (val : atom) : list A :=
  match _meta self !! prop with
  | None => []
  | Some inner =>
      match inner !! serialize val with
      | None => []
      | Some objs => objs
      end
  end.

(** [LinkList.named(name)]. *)
Definition named (self : LinkList A) (name : atom) : exn + option A :=
  get_by self "name" (AStr (serialize name)) false.

(** The objects of [items] recorded with a value of the property [prop]
    that serializes to [sval], in the order of [items]. *)
Definition matching (items : list (A * gmap string atom)) (prop sval : string)
  : list A :=
  omap (fun item =>
          if bool_decide (serialize <$> item.2 !! prop = Some sval)
          then Some item.1 else None)
       items.

End LinkList.

End linklist.

(** ** The address parser of rest_navigator *)

Module rest_navigator_utils.

Import utils.

(** Modelled from the spec: [rest_navigator.utils.normalize_getitem_args],
    the parser that [HALNavigator.__getitem__] calls, is not among the
    sources (the function of that name in restnavigator/utils.py returns a
    flat list, which [__getitem__] does not unpack).  Following the spec's
    address parser: the result is (relation names in order, expansion
    arguments, "has positional binding" flag, "wants continuation" flag); a
    string is a relation name; a [key:value] element becomes one expansion
    argument and is a binding; the continuation marker sets the continuation
    flag; any other element fails with a type error naming its kind.  The
    bare slice [N[:]], which the message of [_GET] names, binds nothing and
    is a binding too. *)
Fixpoint parse (args : list bracket) (rels : list string)
  (qargs : gmap string atom) (slug ellipsis : bool)
  : exn + (list string * gmap string atom * bool * bool) :=
  match args with
  | [] => inr (rels, qargs, slug, ellipsis)
  | BStr s :: rest => parse rest (rels ++ [s]) qargs slug ellipsis
  | BSlice (AStr k) v :: rest => parse rest rels (<[k := v]> qargs) true ellipsis
  | BSlice ANone ANone :: rest => parse rest rels qargs true ellipsis
  | BEllipsis :: rest => parse rest rels qargs slug true
  | arg :: _ =>
      inl (TypeError ("Brackets cannot contain objects of type "
                        +:+ type_name_of arg))
  end.

Definition normalize_getitem_args (args : list bracket)
  : exn + (list string * gmap string atom * bool * bool) :=
  parse args [] ∅ false false.

End rest_navigator_utils.

(** ** rest_navigator/halnav.py *)

Module halnav.

Import utils.

(** References into the store. *)
Abbreviation loc := nat (only parsing).

(** A Python value as a variable or a container slot holds it: a scalar,
    or a reference to a mutable list or dict. *)
Inductive value :=
| VAtom (a : atom)
| VRef (l : loc).

Inductive pyobj :=
| OList (elems : list value)
| ODict (items : list (string * value)).

(** What [requests.get] returns; [body] is the top-level dict that
    [response.json()] parses. *)
Record Response := mkResponse {
  status_code : Z;
  reason : string;
  body : list (string * json);
}.

(** The attributes of a [HALNavigator] instance.  [rel] and [fetched] are
    only set by [_copy]: [None] stands for an attribute that is absent or
    [None]. *)
Record HALNavigator := mkNav {
  root : string;
  name : string;
  uri : option string;
  profile : option string;
  title : option string;
  type : string;
  response : option Response;
  state : option loc;
  template_uri : option string;
  template_args : option (gmap string atom);
  parameters : option (gset string);
  templated : bool;
  _links : option (gmap string loc);
  rel : option string;
  fetched : option bool;
}.

Definition set_uri (v : option string) (n : HALNavigator) : HALNavigator :=
  mkNav (root n) (name n) v (profile n) (title n) (type n) (response n) (state n)
        (template_uri n) (template_args n) (parameters n) (templated n) (_links n)
        (rel n) (fetched n).
Definition set_profile (v : option string) (n : HALNavigator) : HALNavigator :=
  mkNav (root n) (name n) (uri n) v (title n) (type n) (response n) (state n)
        (template_uri n) (template_args n) (parameters n) (templated n) (_links n)
        (rel n) (fetched n).
Definition set_title (v : option string) (n : HALNavigator) : HALNavigator :=
  mkNav (root n) (name n) (uri n) (profile n) v (type n) (response n) (state n)
        (template_uri n) (template_args n) (parameters n) (templated n) (_links n)
        (rel n) (fetched n).
Definition set_type (v : string) (n : HALNavigator) : HALNavigator :=
  mkNav (root n) (name n) (uri n) (profile n) (title n) v (response n) (state n)
        (template_uri n) (template_args n) (parameters n) (templated n) (_links n)
        (rel n) (fetched n).
Definition set_response (v : option Response) (n : HALNavigator) : HALNavigator :=
  mkNav (root n) (name n) (uri n) (profile n) (title n) (type n) v (state n)
        (template_uri n) (template_args n) (parameters n) (templated n) (_links n)
        (rel n) (fetched n).
Definition set_state (v : option loc) (n : HALNavigator) : HALNavigator :=
  mkNav (root n) (name n) (uri n) (profile n) (title n) (type n) (response n) v
        (template_uri n) (template_args n) (parameters n) (templated n) (_links n)
        (rel n) (fetched n).
Definition set_template_uri (v : option string) (n : HALNavigator) : HALNavigator :=
  mkNav (root n) (name n) (uri n) (profile n) (title n) (type n) (response n) (state n)
        v (template_args n) (parameters n) (templated n) (_links n)
        (rel n) (fetched n).
Definition set_template_args (v : option (gmap string atom)) (n : HALNavigator)
  : HALNavigator :=
  mkNav (root n) (name n) (uri n) (profile n) (title n) (type n) (response n) (state n)
        (template_uri n) v (parameters n) (templated n) (_links n)
        (rel n) (fetched n).
Definition set_parameters (v : option (gset string)) (n : HALNavigator) : HALNavigator :=
  mkNav (root n) (name n) (uri n) (profile n) (title n) (type n) (response n) (state n)
        (template_uri n) (template_args n) v (templated n) (_links n)
        (rel n) (fetched n).
Definition set_templated (v : bool) (n : HALNavigator) : HALNavigator :=
  mkNav (root n) (name n) (uri n) (profile n) (title n) (type n) (response n) (state n)
        (template_uri n) (template_args n) (parameters n) v (_links n)
        (rel n) (fetched n).
Definition set_links (v : option (gmap string loc)) (n : HALNavigator) : HALNavigator :=
  mkNav (root n) (name n) (uri n) (profile n) (title n) (type n) (response n) (state n)
        (template_uri n) (template_args n) (parameters n) (templated n) v
        (rel n) (fetched n).
Definition set_rel (v : option string) (n : HALNavigator) : HALNavigator :=
  mkNav (root n) (name n) (uri n) (profile n) (title n) (type n) (response n) (state n)
        (template_uri n) (template_args n) (parameters n) (templated n) (_links n)
        v (fetched n).
Definition set_fetched (v : option bool) (n : HALNavigator) : HALNavigator :=
  mkNav (root n) (name n) (uri n) (profile n) (title n) (type n) (response n) (state n)
        (template_uri n) (template_args n) (parameters n) (templated n) (_links n)
        (rel n) v.

(** One navigation tree: the navigators derived from one root, the objects
    of their fetched documents, the identity map they all share ([copy.copy]
    copies the reference to it, so every navigator of the tree sees the
    same dict) and the requests sent so far.  The identity map is a
    [WeakValueDictionary]: it holds the entries whose navigator is alive. *)
Record Tree := mkTree {
  navs : list HALNavigator;
  objs : list pyobj;
  _id_map : gmap (option string) loc;
  requests : list string;
}.

Definition with_navs (f : list HALNavigator -> list HALNavigator) (t : Tree) : Tree :=
  mkTree (f (navs t)) (objs t) (_id_map t) (requests t).
Definition with_objs (f : list pyobj -> list pyobj) (t : Tree) : Tree :=
  mkTree (navs t) (f (objs t)) (_id_map t) (requests t).
Definition with_id_map (f : gmap (option string) loc -> gmap (option string) loc)
  (t : Tree) : Tree :=
  mkTree (navs t) (objs t) (f (_id_map t)) (requests t).
Definition with_requests (f : list string -> list string) (t : Tree) : Tree :=
  mkTree (navs t) (objs t) (_id_map t) (f (requests t)).

(** *** The monad of the methods: state and exceptions *)

Inductive outcome (A : Type) :=
| Ok (a : A) (t : Tree)
| Raise (e : exn) (t : Tree).
Arguments Ok {A}.
Arguments Raise {A}.

Definition M (A : Type) := Tree -> outcome A.

Definition ret {A} (a : A) : M A := fun t => Ok a t.
Definition raise {A} (e : exn) : M A := fun t => Raise e t.
Definition bind {A B} (m : M A) (k : A -> M B) : M B :=
  fun t => match m t with
           | Ok a t' => k a t'
           | Raise e t' => Raise e t'
           end.

Notation "x <- m ;; k" := (bind m (fun x => k))
  (at level 100, m at next level, right associativity).
Notation "m ;;; k" := (bind m (fun _ => k))
  (at level 100, right associativity).

Definition get_tree : M Tree := fun t => Ok t t.
Definition modify_tree (f : Tree -> Tree) : M unit := fun t => Ok tt (f t).
Definition lift {A} (r : exn + A) : M A :=
  match r with inl e => raise e | inr a => ret a end.

(** [try: m except kind: handler]. *)
Definition try_except {A} (m : M A) (catches : exn -> bool) (handler : M A) : M A :=
  fun t => match m t with
           | Ok a t' => Ok a t'
           | Raise e t' => if catches e then handler t' else Raise e t'
           end.

Definition get_nav (p : loc) : M HALNavigator :=
  fun t => match navs t !! p with
           | Some n => Ok n t
           | None => Raise DanglingReference t
           end.

(** [setattr] on the navigator at [p]. *)
Definition update_nav (p : loc) (f : HALNavigator -> HALNavigator) : M unit :=
  n <- get_nav p ;;
  modify_tree (with_navs (fun l => <[p := f n]> l)).

(** A new navigator object. *)
Definition alloc_nav (n : HALNavigator) : M loc :=
  fun t => Ok (length (navs t)) (with_navs (fun l => l ++ [n]) t).

(** A new list or dict object. *)
Definition alloc_obj (o : pyobj) : M loc :=
  fun t => Ok (length (objs t)) (with_objs (fun l => l ++ [o]) t).
(** The collaborators of the module: the transport behind [requests.get]
    (its answer may depend on the requests sent before) and the two
    functions taken from the uritemplate library. *)
Record Env := mkEnv {
  requests_get : list string -> string -> exn + Response;
  uritemplate_expand : string -> gmap string atom -> string;
  uritemplate_variables : string -> gset string;
}.

(** The keyword arguments [_copy] is called with.  For every attribute but
    [uri], [None] stands for "not passed or passed as None": both leave the
    attribute alone.  For [uri] the difference shows in the first test of
    [_copy], so [kw_uri] is [None] when not passed and [Some None] when
    passed as [None]. *)
Record copy_kwargs := mkKw {
  kw_uri : option (option string);
  kw_template_uri : option string;
  kw_templated : option bool;
  kw_rel : option string;
  kw_title : option string;
  kw_type : option string;
  kw_profile : option string;
}.

Definition no_kwargs : copy_kwargs := mkKw None None None None None None None.

(** [for attr, val in kwargs.iteritems(): if val is not None: setattr(...)]. *)
Definition setattrs (kw : copy_kwargs) (cp : HALNavigator) : HALNavigator :=
  let cp := match kw_uri kw with Some (Some u) => set_uri (Some u) cp | _ => cp end in
  let cp := match kw_template_uri kw with Some v => set_template_uri (Some v) cp | None => cp end in
  let cp := match kw_templated kw with Some v => set_templated v cp | None => cp end in
  let cp := match kw_rel kw with Some v => set_rel (Some v) cp | None => cp end in
  let cp := match kw_title kw with Some v => set_title (Some v) cp | None => cp end in
  let cp := match kw_type kw with Some v => set_type v cp | None => cp end in
  let cp := match kw_profile kw with Some v => set_profile (Some v) cp | None => cp end in
  cp.

(** [copy.copy(self)] followed by the four resets of [_copy]. *)
Definition blank_copy (self : HALNavigator) : HALNavigator :=
  set_fetched (Some false) (set_state None (set_response None (set_links None self))).

(** [HALNavigator._copy]. *)
Definition _copy (self : loc) (kw : copy_kwargs) : M loc :=
  t <- get_tree ;;
  match match kw_uri kw with Some u => _id_map t !! u | None => None end with
  | Some existing => ret existing
  | None =>
      n <- get_nav self ;;
      let cp := setattrs kw (blank_copy n) in
      p <- alloc_nav cp ;;
      if templated cp then ret p
      else (modify_tree (with_id_map (fun m => <[uri cp := p]> m)) ;;; ret p)
  end.

(** [HALNavigator.__init__(root, name)]: the root navigator and the tree
    it seeds.  [fix_scheme] is the one of restnavigator/utils.py. *)
Definition __init__ (root_arg : string) (name_arg : option string)
  : exn + (loc * Tree) :=
  match fix_scheme root_arg with
  | inl e => inl e
  | inr r =>
      let self :=
        mkNav r (default root_arg name_arg) (Some r) None None
              "application/hal+json" None None None None None false None None None in
      inr (0%nat, mkTree [self] [] {[ Some r := 0%nat ]} [])
  end.

(** [response.json()] builds new objects: the value for [j] and the store
    extended with the lists and dicts it is made of. *)
Fixpoint alloc_json (j : json) (h : list pyobj) : value * list pyobj :=
  match j with
  | JAtom a => (VAtom a, h)
  | JList l =>
      let '(vs, h') :=
        (fix go (l : list json) (h : list pyobj) : list value * list pyobj :=
           match l with
           | [] => ([], h)
           | x :: l' =>
               let '(v, h1) := alloc_json x h in
               let '(vs, h2) := go l' h1 in
               (v :: vs, h2)
           end) l h in
      (VRef (length h'), h' ++ [OList vs])
  | JDict d =>
      let '(kvs, h') :=
        (fix go (d : list (string * json)) (h : list pyobj)
           : list (string * value) * list pyobj :=
           match d with
           | [] => ([], h)
           | (k, x) :: d' =>
               let '(v, h1) := alloc_json x h in
               let '(kvs, h2) := go d' h1 in
               ((k, v) :: kvs, h2)
           end) d h in
      (VRef (length h'), h' ++ [ODict kvs])
  end.

Fixpoint alloc_items (d : list (string * json)) (h : list pyobj)
  : list (string * value) * list pyobj :=
  match d with
  | [] => ([], h)
  | (k, x) :: d' =>
      let '(v, h1) := alloc_json x h in
      let '(kvs, h2) := alloc_items d' h1 in
      ((k, v) :: kvs, h2)
  end.

(** An optional string member of a link ([link.get(k)]). *)
Definition get_str (k : string) (d : list (string * json)) : exn + option string :=
  match assoc k d with
  | None | Some (JAtom ANone) => inr None
  | Some (JAtom (AStr s)) => inr (Some s)
  | Some _ => inl NotHAL
  end.

(** [link.get('templated', False)]: [None] when the member is JSON null. *)
Definition link_get_templated (d : list (string * json)) : option bool :=
  match assoc "templated" d with
  | None => Some false
  | Some (JAtom ANone) => None
  | Some j => Some (json_truthy j)
  end.

(** [link['href']]. *)
Definition link_href (d : list (string * json)) : exn + string :=
  match assoc "href" d with
  | None => inl (KeyError "href")
  | Some (JAtom (AStr s)) => inr s
  | Some _ => inl NotHAL
  end.

Section Methods.
Variable E : Env.

(** [requests.get(uri)]: the request is recorded, then answered. *)
Definition http_get (u : option string) : M Response :=
  match u with
  | None => raise (RequestException "None")
  | Some s =>
      t <- get_tree ;;
      modify_tree (with_requests (fun l => l ++ [s])) ;;;
      lift (requests_get E (requests t) s)
  end.

(** The local function [make_nav] of [_GET]. *)
Definition make_nav (self : loc) (rel_name : string) (link : json) : M loc :=
  match link with
  | JDict d =>
      let templated_kw := link_get_templated d in
      let is_templated := default false templated_kw in
      href <- lift (link_href d) ;;
      link_title <- lift (get_str "title" d) ;;
      link_type <- lift (get_str "type" d) ;;
      link_profile <- lift (get_str "profile" d) ;;
      cp <- _copy self
              (mkKw (Some (if is_templated then None else Some href))
                    (if is_templated then Some href else None)
                    templated_kw (Some rel_name)
                    link_title link_type link_profile) ;;
      if is_templated then
        update_nav cp (set_uri None) ;;;
        n <- get_nav cp ;;
        match template_uri n with
        | Some tu =>
            update_nav cp (set_parameters (Some (uritemplate_variables E tu))) ;;;
            ret cp
        | None => raise (TypeError "expected string or buffer")
        end
      else
        update_nav cp (set_template_uri None) ;;; ret cp
  | _ => raise NotHAL
  end.

(** The dict comprehension that builds [self._links]. *)
Fixpoint make_navs (self : loc) (items : list (string * json))
  (acc : gmap string loc) : M (gmap string loc) :=
  match items with
  | [] => ret acc
  | (rel_name, link) :: rest =>
      if String.eqb rel_name "self" then make_navs self rest acc
      else
        cp <- make_nav self rel_name link ;;
        make_navs self rest (<[rel_name := cp]> acc)
  end.

(** [body.get('_links', {})] as the list of its items. *)
Definition links_section (b : list (string * json)) : exn + list (string * json) :=
  match assoc "_links" b with
  | None => inr []
  | Some (JDict d) => inr d
  | Some _ => inl NotHAL
  end.

(** [.get('self', {}).get('title', self.title)]. *)
Definition self_title (links : list (string * json)) (current : option string)
  : exn + option string :=
  match assoc "self" links with
  | None => inr current
  | Some (JDict d) =>
      match assoc "title" d with
      | None => inr current
      | Some (JAtom (AStr s)) => inr (Some s)
      | Some (JAtom ANone) => inr None
      | Some _ => inl NotHAL
      end
  | Some _ => inl NotHAL
  end.

Definition state_filter (kv : string * json) : bool :=
  negb (String.eqb (fst kv) "_links" || String.eqb (fst kv) "_embedded").

(** [HALNavigator._GET]. *)
Definition _GET (self : loc) : M unit :=
  n <- get_nav self ;;
  if templated n then raise AmbiguousNavigationError
  else
    resp <- http_get (uri n) ;;
    update_nav self (set_response (Some resp)) ;;;
    links <- lift (links_section (body resp)) ;;
    made <- make_navs self links ∅ ;;
    update_nav self (set_links (Some made)) ;;;
    n1 <- get_nav self ;;
    new_title <- lift (self_title links (title n1)) ;;
    update_nav self (set_title new_title) ;;;
    t <- get_tree ;;
    let '(kvs, h) := alloc_items (filter state_filter (body resp)) (objs t) in
    modify_tree (with_objs (fun _ => h)) ;;;
    st <- alloc_obj (ODict kvs) ;;
    update_nav self (set_state (Some st)).

(** The decorator [autofetch]: fetch first when there is no response. *)
Definition autofetch {A} (self : loc) (fn : M A) : M A :=
  n <- get_nav self ;;
  match response n with
  | None => _GET self ;;; fn
  | Some _ => fn
  end.

(** The property [links]. *)
Definition links (self : loc) : M (option (gmap string loc)) :=
  autofetch self (n <- get_nav self ;; ret (_links n)).

(** The property [status]. *)
Definition status (self : loc) : M (option (Z * string)) :=
  n <- get_nav self ;;
  ret (match response n with
       | Some r => Some (status_code r, reason r)
       | None => None
       end).

(** [HALNavigator.__eq__]. *)
Definition __eq__ (self other : loc) : M bool :=
  a <- get_nav self ;;
  b <- get_nav other ;;
  ret (bool_decide (uri a = uri b) && bool_decide (name a = name b)).

(** [self.state.copy()]: a new dict with the items of the state dict. *)
Definition state_copy (self : loc) : M loc :=
  n <- get_nav self ;;
  match state n with
  | None => raise AttributeError
  | Some st =>
      t <- get_tree ;;
      match objs t !! st with
      | Some (ODict items) => alloc_obj (ODict items)
      | Some (OList _) => raise AttributeError
      | None => raise DanglingReference
      end
  end.

(** [HALNavigator.__call__]. *)
Definition __call__ (self : loc) : M loc :=
  autofetch self (state_copy self).

(** The loop [if v == 0: kwargs[k] = '0'] of [expand]. *)
Definition zero_to_str (v : atom) : atom :=
  if eq_zero v then AStr "0" else v.

(** The argument dict [expand] passes to [uritemplate.expand]:
    [kwargs.update(self.template_args)] after the zero loop. *)
Definition merged_kwargs (bound : option (gmap string atom))
  (kwargs : gmap string atom) : gmap string atom :=
  let kwargs := zero_to_str <$> kwargs in
  match bound with
  | Some template_args => template_args ∪ kwargs
  | None => kwargs
  end.

(** [HALNavigator.expand]. *)
Definition expand (self : loc) (_keep_templated : bool)
  (kwargs : gmap string atom) : M loc :=
  n <- get_nav self ;;
  if negb (templated n) then
    raise (TypeError "This Navigator isn't templated! You can't expand it.")
  else
    let kwargs := merged_kwargs (template_args n) kwargs in
    match template_uri n with
    | None => raise (TypeError "expected string or buffer")
    | Some tu =>
        cp <- _copy self
                (mkKw (Some (Some (uritemplate_expand E tu kwargs))) None
                      (Some _keep_templated) None None None None) ;;
        (if negb _keep_templated then
           update_nav cp (set_template_uri None) ;;;
           update_nav cp (set_template_args None)
         else
           update_nav cp (set_template_args (Some kwargs))) ;;;
        ret cp
    end.

(** [n.links[rel]] followed by the copy of a templated result: the first
    branch of the local function [dereference] of [__getitem__]. *)
Definition dereference_one (n : loc) (rel_name : string) : M loc :=
  autofetch n
    (ls <- links n ;;
     match ls with
     | None => raise (TypeError "'NoneType' object has no attribute '__getitem__'")
     | Some d =>
         match d !! rel_name with
         | None => raise (KeyError rel_name)
         | Some found =>
             m <- get_nav found ;;
             if templated m then _copy found no_kwargs else ret found
         end
     end).

(** The local function [dereference].  Its recursive branch evaluates
    [n[rels[0]]], a call of [__getitem__] with one relation name, which
    comes back to [dereference(n, [rels[0]])] and returns its result as it
    is (see [getitem_one_rel]). *)
Fixpoint dereference (n : loc) (rels : list string) : M loc :=
  match rels with
  | [] => autofetch n (raise IndexError)
  | [rel_name] => dereference_one n rel_name
  | rel_name :: rest =>
      autofetch n (n' <- dereference_one n rel_name ;; dereference n' rest)
  end.

Definition syntax_error : exn :=
  SyntaxError "':' and '...' syntax cannot be combined!".

(** [HALNavigator.__getitem__]. *)
Definition __getitem__ (self : loc) (getitem_args : list bracket) : M loc :=
  match rest_navigator_utils.normalize_getitem_args getitem_args with
  | inl e => raise e
  | inr (rels, qargs, slug, ellipsis) =>
      if slug && ellipsis then raise syntax_error
      else
        n <- match rels with
             | [] => ret self
             | _ => dereference self rels
             end ;;
        if negb (bool_decide (qargs = ∅)) || slug then
          if bool_decide ("_keep_templated" ∈ dom qargs) then
            raise (TypeError "expand() got multiple values for keyword argument '_keep_templated'")
          else expand n ellipsis qargs
        else ret n
  end.

(** [HALNavigator.next]. *)
Definition next (self : loc) : M loc :=
  try_except (__getitem__ self [BStr "next"])
    (fun e => match e with KeyError _ => true | _ => false end)
    (raise StopIteration).

(** [HALNavigator.__iter__], run for at most [fuel] items: the navigators
    the generator yields, and whether it ended.  An exception other than
    [StopIteration] leaves the generator and reaches the caller. *)
Fixpoint __iter__ (fuel : nat) (last : loc) : M (list loc * bool) :=
  match fuel with
  | O => ret ([], false)
  | S fuel' =>
      fun t =>
        match next last t with
        | Ok current t' =>
            (more <- __iter__ fuel' current ;;
             ret (current :: fst more, snd more)) t'
        | Raise StopIteration t' => Ok ([], true) t'
        | Raise e t' => Raise e t'
        end
  end.
End Methods.

(** *** Well-formed trees *)

(** The tree an outcome leaves behind, whether it returned or raised. *)
Definition tree_of {A} (o : outcome A) : Tree :=
  match o with
  | Ok _ t => t
  | Raise _ t => t
  end.

(** The tree with one more navigator, registered under its uri unless it
    is templated: what [_copy] does to the tree when it builds a copy. *)
Definition add_nav (cp : HALNavigator) (t : Tree) : Tree :=
  mkTree (navs t ++ [cp]) (objs t)
         (if templated cp then _id_map t
          else <[uri cp := length (navs t)]> (_id_map t))
         (requests t).

(** The references of an object lead to objects built before it: the
    objects of a parsed document hold no cycle. *)
Definition value_below (l : loc) (v : value) : Prop :=
  match v with
  | VAtom _ => True
  | VRef r => (r < l)%nat
  end.

Definition refs_below (l : loc) (o : pyobj) : Prop :=
  match o with
  | OList elems => Forall (value_below l) elems
  | ODict items => Forall (fun kv => value_below l kv.2) items
  end.

Definition closed (h : list pyobj) : Prop :=
  forall l o, h !! l = Some o -> refs_below l o.

(** The invariant of a navigation tree between two calls of its methods:
    - an entry of the identity map leads to a navigator that is not
      templated and whose uri is the key;
    - a navigator that is not templated has a uri and no template;
    - a templated navigator has a template;
    - the links of a navigator are navigators of the tree;
    - the state of a navigator is a dict of the tree;
    - the objects of the tree only refer to older objects. *)
Record wf (t : Tree) : Prop := mk_wf {
  wf_id_map : forall u p, _id_map t !! u = Some p ->
    exists n, navs t !! p = Some n /\ templated n = false /\ uri n = u;
  wf_concrete : forall p n, navs t !! p = Some n -> templated n = false ->
    template_uri n = None /\ is_Some (uri n);
  wf_templated : forall p n, navs t !! p = Some n -> templated n = true ->
    is_Some (template_uri n);
  wf_links : forall p n ls r c, navs t !! p = Some n -> _links n = Some ls ->
    ls !! r = Some c -> (c < length (navs t))%nat;
  wf_state : forall p n s, navs t !! p = Some n -> state n = Some s ->
    exists items, objs t !! s = Some (ODict items);
  wf_objs : closed (objs t);
}.

(** How a tree grows: navigators stay where they are, keep their
    [templated] flag and their uri and never lose their response, entries
    of the identity map stay, and objects and requests are only added. *)
Record ext (t t' : Tree) : Prop := mk_ext {
  ext_navs : forall p n, navs t !! p = Some n ->
    exists n', navs t' !! p = Some n' /\ templated n' = templated n /\ uri n' = uri n
               /\ (is_Some (response n) -> is_Some (response n'));
  ext_id_map : forall u p, _id_map t !! u = Some p -> _id_map t' !! u = Some p;
  ext_objs : objs t `prefix_of` objs t';
  ext_requests : requests t `prefix_of` requests t';
}.

(** The garbage collector drops entries of the identity map, but none
    whose navigator is still held by a strong reference. *)
Definition collect (held : loc -> Prop) (t t' : Tree) : Prop :=
  navs t' = navs t /\ objs t' = objs t /\ requests t' = requests t
  /\ _id_map t' ⊆ _id_map t
  /\ forall u p, _id_map t !! u = Some p -> held p -> _id_map t' !! u = Some p.

(** *** The caller's side *)

(** What a caller does with the dict [__call__] returns: [d[k] = v],
    [d[k]] and, on a list found in it, [l.append(v)]. *)
Fixpoint assoc_set {A} (k : string) (v : A) (d : list (string * A))
  : list (string * A) :=
  match d with
  | [] => [(k, v)]
  | (k', v') :: d' =>
      if String.eqb k k' then (k, v) :: d' else (k', v') :: assoc_set k v d'
  end.

Definition dict_setitem (d : loc) (k : string) (v : value) : M unit :=
  t <- get_tree ;;
  match objs t !! d with
  | Some (ODict items) =>
      modify_tree (with_objs (fun h => <[d := ODict (assoc_set k v items)]> h))
  | Some (OList _) => raise (TypeError "list indices must be integers, not str")
  | None => raise DanglingReference
  end.

Definition dict_lookup (d : loc) (k : string) : M value :=
  t <- get_tree ;;
  match objs t !! d with
  | Some (ODict items) =>
      match assoc k items with
      | Some v => ret v
      | None => raise (KeyError k)
      end
  | Some (OList _) => raise (TypeError "list indices must be integers, not str")
  | None => raise DanglingReference
  end.

Definition list_append (l : loc) (v : value) : M unit :=
  t <- get_tree ;;
  match objs t !! l with
  | Some (OList elems) =>
      modify_tree (with_objs (fun h => <[l := OList (elems ++ [v])]> h))
  | Some (ODict _) => raise AttributeError
  | None => raise DanglingReference
  end.

(** The document a value stands for: the value read through the store, to
    the given depth. *)
Fixpoint view (fuel : nat) (h : list pyobj) (v : value) : option json :=
  match fuel with
  | O => None
  | S fuel' =>
      match v with
      | VAtom a => Some (JAtom a)
      | VRef l =>
          match h !! l with
          | Some (OList elems) => JList <$> mapM (view fuel' h) elems
          | Some (ODict items) =>
              JDict <$> mapM (fun kv => pair kv.1 <$> view fuel' h kv.2) items
          | None => None
          end
      end
  end.

(** The state of a navigator as a document. *)
Definition state_view (fuel : nat) (p : loc) (t : Tree) : option json :=
  n ← navs t !! p; st ← state n; view fuel (objs t) (VRef st).

(** *** The life of a tree *)

(** One step in the life of a tree: the caller invokes a method on a
    navigator of the tree, or the garbage collector drops entries of the
    identity map whose navigator nobody holds. *)
Inductive step (E : Env) (held : loc -> Prop) : Tree -> Tree -> Prop :=
| step_collect t t' : collect held t t' -> step E held t t'
| step_GET self t : step E held t (tree_of (_GET E self t))
| step_links self t : step E held t (tree_of (links E self t))
| step_call self t : step E held t (tree_of (__call__ E self t))
| step_expand self keep kwargs t :
    step E held t (tree_of (expand E self keep kwargs t))
| step_getitem self args t :
    (self < length (navs t))%nat ->
    step E held t (tree_of (__getitem__ E self args t))
| step_iter fuel self t :
    (self < length (navs t))%nat ->
    step E held t (tree_of (__iter__ E fuel self t)).

(** A lookup of the uri [U] through the identity map: the construction of
    the navigator for a link to [U], or the final expansion of a template
    to [U]. *)
Inductive looks_up (E : Env) (U : string) (t : Tree) : M loc -> Prop :=
| look_link self n rel_name d ttl typ prf :
    navs t !! self = Some n -> templated n = false ->
    link_href d = inr U -> get_str "title" d = inr ttl ->
    get_str "type" d = inr typ -> get_str "profile" d = inr prf ->
    default false (link_get_templated d) = false ->
    looks_up E U t (make_nav E self rel_name (JDict d))
| look_expand self n tu kwargs :
    navs t !! self = Some n -> templated n = true ->
    template_uri n = Some tu ->
    uritemplate_expand E tu (merged_kwargs (template_args n) kwargs) = U ->
    looks_up E U t (expand E self false kwargs).

End halnav.

(** * Scenarios *)

(** The registry of the examples: default curie [ex], one custom relation
    and one standard relation stored under the curie. *)
Definition demo_registry : utils.LinkDict nat :=
  utils.mkLinkDict (Some "ex") {[ "ex:widget" := 1%nat; "ex:next" := 7%nat ]}.

(** A server with two pages, an order lookup and a search.  The first page
    links to the second one by [next] and carries the two templates. *)
Definition href_link (h : string) : json := JDict [("href", JAtom (AStr h))].

Definition page1_doc : list (string * json) :=
  [("_links",
    JDict [("self", href_link "http://example.com/page/1");
           ("next", href_link "/page/2");
           ("orders", JDict [("href", JAtom (AStr "/orders{?id}"));
                             ("templated", JAtom (ABool true))]);
           ("search", JDict [("href", JAtom (AStr "/search{?q,page}"));
                             ("templated", JAtom (ABool true))])]);
   ("n", JAtom (AInt 1));
   ("tags", JList [JAtom (AStr "a")])].

Definition page2_doc : list (string * json) :=
  [("_links", JDict [("self", href_link "/page/2")]);
   ("n", JAtom (AInt 2))].

Definition order_doc : list (string * json) :=
  [("_links", JDict []); ("order", JAtom (AStr "found"))].

Definition demo_server (sent : list string) (u : string) : exn + halnav.Response :=
  if String.eqb u "http://example.com/page/1" then
    inr (halnav.mkResponse 200 "OK" page1_doc)
  else if String.eqb u "/page/2" then
    inr (halnav.mkResponse 200 "OK" page2_doc)
  else if String.prefix "/orders" u || String.prefix "/search" u then
    inr (halnav.mkResponse 200 "OK" order_doc)
  else inl (RequestException u).

Definition demo_env : halnav.Env :=
  halnav.mkEnv demo_server uritemplate.expand uritemplate.variables.

(** The tree of the root navigator for the first page, before any fetch. *)
Definition demo_root : halnav.Tree :=
  match halnav.__init__ "example.com/page/1" None with
  | inr (_, t) => t
  | inl _ => halnav.mkTree [] [] ∅ []
  end.

(** The tree after the root is fetched: navigator 0 is the root, 1 the
    second page, 2 the templated order lookup and 3 the templated search. *)
Definition demo_fetched : halnav.Tree :=
  halnav.tree_of (halnav._GET demo_env 0%nat demo_root).

(** The tree after the order lookup was expanded with [id=1]: navigator 4
    is the order found. *)
Definition demo_expanded : halnav.Tree :=
  halnav.tree_of (halnav.expand demo_env 2%nat false {[ "id" := AInt 1 ]} demo_fetched).

(** The tree after the search was expanded with [q=x] in the keep-templated
    mode: navigator 4 is the search with [q] bound. *)
Definition demo_bound : halnav.Tree :=
  halnav.tree_of (halnav.expand demo_env 3%nat true {[ "q" := AStr "x" ]} demo_fetched).

(** * Notions of the statements *)

Import utils halnav.
Local Close Scope Z_scope.

(** What a new navigator must satisfy to keep the tree well formed. *)
Definition addable (t : Tree) (cp : HALNavigator) : Prop :=
  _links cp = None /\ state cp = None
  /\ (templated cp = false ->
      template_uri cp = None /\ is_Some (uri cp) /\ _id_map t !! uri cp = None)
  /\ (templated cp = true -> is_Some (template_uri cp)).

(** A link descriptor that [make_nav] accepts: its href and its optional
    title, type and profile are strings. *)
Definition link_ok (d : list (string * json)) (href : string)
  (ttl typ prf : option string) : Prop :=
  link_href d = inr href /\ get_str "title" d = inr ttl
  /\ get_str "type" d = inr typ /\ get_str "profile" d = inr prf.

(** The navigator [make_nav] builds for a link to a concrete resource. *)
Definition link_copy (d : list (string * json)) (rel_name href : string)
  (ttl typ prf : option string) (n : HALNavigator) : HALNavigator :=
  set_template_uri None
    (setattrs (mkKw (Some (Some href)) None (link_get_templated d) (Some rel_name)
                    ttl typ prf)
              (blank_copy n)).

(** The navigator [make_nav] builds for a templated link. *)
Definition template_copy (E : Env) (rel_name href : string)
  (ttl typ prf : option string) (n : HALNavigator) : HALNavigator :=
  set_parameters (Some (uritemplate_variables E href))
    (set_uri None
       (setattrs (mkKw (Some None) (Some href) (Some true) (Some rel_name)
                       ttl typ prf)
                 (blank_copy n))).

(** [good P m Q]: from a well-formed tree that satisfies [P], the method
    [m] leaves a well-formed tree that extends the one it started from,
    whether it returns or raises, and a returned value satisfies [Q]. *)
Definition good {A} (P : Tree -> Prop) (m : M A) (Q : A -> Tree -> Prop) : Prop :=
  forall t, wf t -> P t ->
    wf (tree_of (m t)) /\ ext t (tree_of (m t))
    /\ match m t with Ok a t' => Q a t' | Raise _ _ => True end.

(** Facts that survive the growth of the tree. *)
Definition stable (F : Tree -> Prop) : Prop :=
  forall t t', ext t t' -> F t -> F t'.

Definition concrete (p : loc) (t : Tree) : Prop :=
  exists n, navs t !! p = Some n /\ templated n = false.

Definition has_response (p : loc) (t : Tree) : Prop :=
  exists n, navs t !! p = Some n /\ is_Some (response n).

Definition allocated (p : loc) (t : Tree) : Prop := p < length (navs t).

Definition links_allocated (ls : gmap string loc) (t : Tree) : Prop :=
  forall r c, ls !! r = Some c -> allocated c t.

(** The navigator a keep-templated or a final expansion builds when the
    identity map has none for the expanded uri. *)
Definition expanded_copy (keep : bool) (kw : gmap string atom) (u : string)
  (n : HALNavigator) : HALNavigator :=
  let cp := set_templated keep (set_uri (Some u) (blank_copy n)) in
  if keep then set_template_args (Some kw) cp
  else set_template_args None (set_template_uri None cp).

(** What the expansion does to a navigator taken from the identity map. *)
Definition expanded_existing (keep : bool) (kw : gmap string atom)
  (m : HALNavigator) : HALNavigator :=
  if keep then set_template_args (Some kw) m
  else set_template_args None (set_template_uri None m).

(** A template-binding element: [key:value], or the bare slice. *)
Definition is_binding (arg : bracket) : bool :=
  match arg with
  | BSlice (AStr _) _ => true
  | BSlice ANone ANone => true
  | _ => false
  end.

Definition is_ellipsis (arg : bracket) : bool :=
  match arg with
  | BEllipsis => true
  | _ => false
  end.

(** The elements of an address: relation names, bindings and the
    continuation marker. *)
Definition recognized (arg : bracket) : bool :=
  match arg with
  | BStr _ => true
  | BEllipsis => true
  | _ => is_binding arg
  end.

(** The errors of a malformed address. *)
Definition malformed_address (e : exn) : Prop :=
  match e with
  | SyntaxError _ => True
  | TypeError _ => True
  | _ => False
  end.

(** * Properties *)

(** ** Schemes and templates *)

(** The four root addresses of the spec. *)
Lemma fix_scheme_examples :
  fix_scheme "example.com" = inr "http://example.com"
  /\ fix_scheme "http://example.com" = inr "http://example.com"
  /\ fix_scheme "ftp://example.com" = inl WileECoyoteException
  /\ fix_scheme "http://x://y" = inl ZachMorrisException.
Proof. repeat split. Qed.

(** The template library on a few expressions of RFC 6570. *)
Lemma uritemplate_examples :
  uritemplate.expand "/orders{?id}" {[ "id" := AStr "0" ]} = "/orders?id=0"
  /\ uritemplate.expand "/orders{?id}" {[ "id" := AInt 0 ]} = "/orders?id="
  /\ uritemplate.expand "/find{?q,page}{#frag}"
       {[ "q" := AStr "a b"; "page" := AInt 42; "frag" := AStr "top" ]}
     = "/find?q=a%20b&page=42#top"
  /\ uritemplate.expand "/users{/name}{;v}" {[ "name" := AStr "bob"; "v" := AStr "" ]}
     = "/users/bob;v"
  /\ uritemplate.variables "/find{?q,page}{#frag}" = {[ "q"; "page"; "frag" ]}.
Proof.
  split; [vm_compute; reflexivity|]. split; [vm_compute; reflexivity|].
  split; [vm_compute; reflexivity|]. split; [vm_compute; reflexivity|].
  vm_compute. reflexivity.
Qed.

(** [':' in key] holds exactly of the keys with a colon somewhere. *)
Lemma str_contains_colon (key : string) :
  str_contains ":" key = true <-> exists a b, key = a +:+ String ":" b.
Proof.
  induction key as [|c k IH].
  - split; [intros H; vm_compute in H; discriminate H|].
    intros ([|c' a] & b & H).
    + change ("" = String ":" b) in H. discriminate H.
    + change ("" = String c' (a +:+ String ":" b)) in H. discriminate H.
  - change (str_contains ":" (String c k))
      with (String.prefix ":" (String c k) || str_contains ":" k).
    rewrite orb_true_iff, IH. split.
    + intros [Hp | (a & b & ->)].
      * change (String.prefix ":" (String c k))
          with (if ascii_dec ":" c then String.prefix "" k else false) in Hp.
        destruct (ascii_dec ":" c) as [<-|]; [|discriminate Hp].
        exists "", k. reflexivity.
      * exists (String c a), b. reflexivity.
    + intros ([|c' a] & b & H).
      * left. change (String c k = String ":" b) in H. injection H as -> ->.
        change (String.prefix ":" (String ":" b))
          with (if ascii_dec ":" ":" then String.prefix "" b else false).
        destruct (ascii_dec ":" ":") as [_|Hne]; [|contradiction].
        now destruct b.
      * right. change (String c k = String c' (a +:+ String ":" b)) in H.
        injection H as -> ->. eauto.
Qed.

(** ** The link registry ([LinkDict]) *)

Section LinkDictFacts.
Import utils.
Context {V : Type}.

Lemma dict_getitem_hit (d : gmap string V) (k : string) (v : V) :
  d !! k = Some v -> dict_getitem d k = inr v.
Proof. intros H. unfold dict_getitem. now rewrite H. Qed.

Lemma dict_getitem_miss (d : gmap string V) (k : string) :
  d !! k = None -> dict_getitem d k = inl (KeyError k).
Proof. intros H. unfold dict_getitem. now rewrite H. Qed.
End LinkDictFacts.

(** C9 (as [LinkDict.__getitem__] has it): a key is looked up verbatim when
    it contains [':'], or when it is both stored in the registry and a
    standard relation name, or when no default curie is configured;
    otherwise it is looked up as [<default-curie>:<key>]; a lookup that
    misses raises [KeyError] with the key that was looked up. *)
Theorem LinkDict_getitem_rule {V : Type} (iana_rels : gset string)
  (self : utils.LinkDict V) (key : string) :
  (str_contains ":" key = true
   \/ (key ∈ dom (utils.entries self) /\ key ∈ iana_rels)
   \/ utils.default_curie self = None ->
   utils.LinkDict_getitem iana_rels self key
   = utils.dict_getitem (utils.entries self) key)
  /\ (forall curie,
        str_contains ":" key = false ->
        ~ (key ∈ dom (utils.entries self) /\ key ∈ iana_rels) ->
        utils.default_curie self = Some curie ->
        utils.LinkDict_getitem iana_rels self key
        = utils.dict_getitem (utils.entries self) (curie +:+ ":" +:+ key))
  /\ (forall k v, utils.entries self !! k = Some v ->
                  utils.dict_getitem (utils.entries self) k = inr v)
  /\ (forall k, utils.entries self !! k = None ->
                utils.dict_getitem (utils.entries self) k = inl (KeyError k)).
Proof.
  repeat split.
  - intros H. unfold utils.LinkDict_getitem.
    destruct (str_contains ":" key) eqn:Hc; [reflexivity|].
    destruct H as [H | [[Hd Hi] | Hn]]; [discriminate | |].
    + rewrite (bool_decide_eq_true_2 _ Hd), (bool_decide_eq_true_2 _ Hi). reflexivity.
    + rewrite (bool_decide_eq_true_2 _ Hn), orb_true_r. reflexivity.
  - intros curie Hc Hnot Hcur. unfold utils.LinkDict_getitem.
    rewrite Hc, Hcur. simpl.
    destruct (bool_decide (key ∈ dom (utils.entries self))) eqn:Hd;
      destruct (bool_decide (key ∈ iana_rels)) eqn:Hi; simpl; try reflexivity.
    exfalso. apply Hnot. split.
    + eapply bool_decide_eq_true_1, Hd.
    + eapply bool_decide_eq_true_1, Hi.
  - intros k v. apply dict_getitem_hit.
  - intros k. apply dict_getitem_miss.
Qed.

Lemma LinkDict_getitem_rule_witness :
  utils.LinkDict_getitem utils.some_iana_rels demo_registry "ex:widget" = inr 1%nat
  /\ utils.LinkDict_getitem utils.some_iana_rels demo_registry "widget" = inr 1%nat
  /\ utils.LinkDict_getitem utils.some_iana_rels demo_registry "gadget"
     = inl (KeyError "ex:gadget").
Proof.
  split; [|split].
  - destruct (LinkDict_getitem_rule utils.some_iana_rels demo_registry "ex:widget")
      as (Hv & _ & Hhit & _).
    rewrite Hv by (left; reflexivity).
    apply Hhit. vm_compute. reflexivity.
  - destruct (LinkDict_getitem_rule utils.some_iana_rels demo_registry "widget")
      as (_ & Hr & Hhit & _).
    rewrite (Hr "ex") by
      (try reflexivity; intros [Hd _]; apply elem_of_dom in Hd;
       destruct Hd as [x Hx]; vm_compute in Hx; discriminate Hx).
    apply Hhit. vm_compute. reflexivity.
  - destruct (LinkDict_getitem_rule utils.some_iana_rels demo_registry "gadget")
      as (_ & Hr & _ & Hmiss).
    rewrite (Hr "ex") by
      (try reflexivity; intros [Hd _]; apply elem_of_dom in Hd;
       destruct Hd as [x Hx]; vm_compute in Hx; discriminate Hx).
    apply Hmiss. vm_compute. reflexivity.
Defined.

(** C9 as the spec words it fails: [next] is a standard relation name, yet
    with default curie [ex] the registry looks [ex:next] up, where the
    verbatim lookup of [next] misses. *)
Lemma LinkDict_standard_name_rewritten :
  "next" ∈ utils.some_iana_rels
  /\ utils.LinkDict_getitem utils.some_iana_rels demo_registry "next" = inr 7%nat
  /\ utils.dict_getitem (utils.entries demo_registry) "next" = inl (KeyError "next").
Proof.
  split; [|split].
  - unfold utils.some_iana_rels. set_solver.
  - vm_compute. reflexivity.
  - vm_compute. reflexivity.
Qed.

(** ** Stores *)

Lemma snoc_insert_last {A} (l : list A) (x y : A) :
  <[length l := y]> (l ++ [x]) = l ++ [y].
Proof.
  replace (length l) with (length l + 0) by lia.
  rewrite insert_app_r. reflexivity.
Qed.

Lemma snoc_lookup_last {A} (l : list A) (x : A) :
  (l ++ [x]) !! length l = Some x.
Proof. apply list_lookup_middle. reflexivity. Qed.

Lemma ext_refl t : ext t t.
Proof.
  split; try reflexivity.
  - intros p n H. exists n. auto.
  - auto.
Qed.

Lemma ext_trans t1 t2 t3 : ext t1 t2 -> ext t2 t3 -> ext t1 t3.
Proof.
  intros [N1 I1 O1 R1] [N2 I2 O2 R2]. split.
  - intros p n H. destruct (N1 p n H) as (n' & H' & Ht & Hu & Hr).
    destruct (N2 p n' H') as (n'' & H'' & Ht' & Hu' & Hr').
    exists n''. repeat split; try congruence. auto.
  - auto.
  - etransitivity; eassumption.
  - etransitivity; eassumption.
Qed.

Lemma ext_length t t' : ext t t' -> length (navs t) <= length (navs t').
Proof.
  intros [N _ _ _].
  destruct (decide (length (navs t) <= length (navs t'))) as [|Hn]; [assumption|].
  assert (Hlt : length (navs t') < length (navs t)) by lia.
  apply lookup_lt_is_Some_2 in Hlt. destruct Hlt as [n Hn'].
  destruct (N _ _ Hn') as (n' & H' & _).
  apply lookup_lt_Some in H'. lia.
Qed.

(** Adding a request changes neither navigators nor the identity map. *)
Lemma wf_with_requests f t : wf t -> wf (with_requests f t).
Proof. intros [A B C D F G]. split; assumption. Qed.

Lemma ext_with_requests x t : ext t (with_requests (fun l => l ++ [x]) t).
Proof.
  split; simpl; try reflexivity.
  - intros p n H. exists n. auto.
  - auto.
  - apply prefix_app_r. reflexivity.
Qed.

(** Adding objects keeps the states of the navigators. *)
Lemma wf_with_objs h t :
  objs t `prefix_of` h -> closed h -> wf t -> wf (with_objs (fun _ => h) t).
Proof.
  intros [k ->] Hcl [A B C D F G]. split; try assumption.
  intros p n s Hn Hs. simpl in *. destruct (F p n s Hn Hs) as [items Hi].
  exists items. now apply lookup_app_l_Some.
Qed.

Lemma ext_with_objs h t : objs t `prefix_of` h -> ext t (with_objs (fun _ => h) t).
Proof.
  intros Hp. split; simpl; try reflexivity; auto.
  intros p n H. exists n. auto.
Qed.

(** [setattr] on a navigator of the tree, when the attribute is none of
    those the invariant speaks about. *)
Lemma wf_update t p n n' :
  wf t -> navs t !! p = Some n ->
  templated n' = templated n -> uri n' = uri n ->
  (templated n = false -> template_uri n' = None) ->
  (templated n = true -> is_Some (template_uri n')) ->
  (forall ls r c, _links n' = Some ls -> ls !! r = Some c -> c < length (navs t)) ->
  (forall s, state n' = Some s -> exists items, objs t !! s = Some (ODict items)) ->
  wf (with_navs (fun l => <[p := n']> l) t).
Proof.
  intros [A B C D F G] Hp Ht Hu Hc Htm Hl Hs.
  assert (Hlt := lookup_lt_Some _ _ _ Hp).
  split; simpl.
  - intros u q Hq. destruct (A u q Hq) as (m & Hm & Hmt & Hmu).
    destruct (decide (p = q)) as [<-|Hne].
    + exists n'. rewrite list_lookup_insert_eq by assumption.
      assert (m = n) by congruence. subst m. repeat split; congruence.
    + exists m. rewrite list_lookup_insert_ne by assumption. auto.
  - intros q m Hq Hmt. destruct (decide (p = q)) as [<-|Hne].
    + rewrite list_lookup_insert_eq in Hq by assumption. injection Hq as <-.
      split.
      * apply Hc. congruence.
      * rewrite Hu. apply (B p n Hp). congruence.
    + rewrite list_lookup_insert_ne in Hq by assumption. eauto.
  - intros q m Hq Hmt. destruct (decide (p = q)) as [<-|Hne].
    + rewrite list_lookup_insert_eq in Hq by assumption. injection Hq as <-.
      apply Htm. congruence.
    + rewrite list_lookup_insert_ne in Hq by assumption. eauto.
  - intros q m ls r c Hq Hls Hr. rewrite length_insert.
    destruct (decide (p = q)) as [<-|Hne].
    + rewrite list_lookup_insert_eq in Hq by assumption. injection Hq as <-. eauto.
    + rewrite list_lookup_insert_ne in Hq by assumption. eauto.
  - intros q m s Hq Hms. destruct (decide (p = q)) as [<-|Hne].
    + rewrite list_lookup_insert_eq in Hq by assumption. injection Hq as <-. eauto.
    + rewrite list_lookup_insert_ne in Hq by assumption. eauto.
  - exact G.
Qed.

Lemma ext_update t p n n' :
  navs t !! p = Some n -> templated n' = templated n -> uri n' = uri n ->
  (is_Some (response n) -> is_Some (response n')) ->
  ext t (with_navs (fun l => <[p := n']> l) t).
Proof.
  intros Hp Ht Hu Hr. assert (Hlt := lookup_lt_Some _ _ _ Hp).
  split; simpl; try reflexivity; auto.
  intros q m Hq. destruct (decide (p = q)) as [<-|Hne].
  - exists n'. rewrite list_lookup_insert_eq by assumption.
    assert (m = n) by congruence. subst m. auto.
  - exists m. rewrite list_lookup_insert_ne by assumption. auto.
Qed.

(** The same for the attributes a fetch sets: new links must be
    navigators of the tree and a new state a dict of the tree. *)
Lemma wf_update_fields t p n n' :
  wf t -> navs t !! p = Some n ->
  templated n' = templated n -> uri n' = uri n ->
  template_uri n' = template_uri n ->
  (_links n' = _links n
   \/ exists ls, _links n' = Some ls
                 /\ forall r c, ls !! r = Some c -> c < length (navs t)) ->
  (state n' = state n
   \/ exists s items, state n' = Some s /\ objs t !! s = Some (ODict items)) ->
  wf (with_navs (fun l => <[p := n']> l) t).
Proof.
  intros W Hp Ht Hu Htu Hl Hs.
  apply (wf_update t p n n' W Hp Ht Hu).
  - intros Hc. rewrite Htu. exact (proj1 (wf_concrete _ W _ _ Hp Hc)).
  - intros Hc. rewrite Htu. exact (wf_templated _ W _ _ Hp Hc).
  - intros ls r c Hls Hr. destruct Hl as [Hl | (ls' & Hl & Hall)].
    + rewrite Hl in Hls. exact (wf_links _ W _ _ _ _ _ Hp Hls Hr).
    + rewrite Hl in Hls. injection Hls as <-. eauto.
  - intros s Hst. destruct Hs as [Hs | (s' & items & Hs & Ho)].
    + rewrite Hs in Hst. exact (wf_state _ W _ _ _ Hp Hst).
    + rewrite Hs in Hst. injection Hst as <-. eauto.
Qed.

(** A new navigator without links and state, as [_copy] builds it. *)
Lemma wf_add_nav t cp :
  wf t ->
  (templated cp = false -> template_uri cp = None /\ is_Some (uri cp)) ->
  (templated cp = true -> is_Some (template_uri cp)) ->
  _links cp = None -> state cp = None ->
  wf (add_nav cp t).
Proof.
  intros [A B C D F G] Hc Htm Hl Hs. split; simpl.
  - intros u q Hq.
    assert (Hold : forall u q, _id_map t !! u = Some q ->
              exists n, (navs t ++ [cp]) !! q = Some n /\ templated n = false /\ uri n = u).
    { intros u' q' Hq'. destruct (A u' q' Hq') as (m & Hm & Hx).
      exists m. split; [now apply lookup_app_l_Some | exact Hx]. }
    destruct (templated cp) eqn:Ht; [eauto|].
    destruct (decide (uri cp = u)) as [<-|Hne].
    + rewrite lookup_insert_eq in Hq. injection Hq as <-.
      exists cp. split; [apply snoc_lookup_last | auto].
    + rewrite lookup_insert_ne in Hq by assumption. eauto.
  - intros q m Hq Hmt. apply lookup_snoc_Some in Hq.
    destruct Hq as [[_ Hq] | [_ <-]]; eauto.
  - intros q m Hq Hmt. apply lookup_snoc_Some in Hq.
    destruct Hq as [[_ Hq] | [_ <-]]; eauto.
  - intros q m ls r c Hq Hls Hr. rewrite length_app. simpl.
    apply lookup_snoc_Some in Hq. destruct Hq as [[_ Hq] | [_ <-]].
    + specialize (D q m ls r c Hq Hls Hr). lia.
    + congruence.
  - intros q m s Hq Hms. apply lookup_snoc_Some in Hq.
    destruct Hq as [[_ Hq] | [_ <-]]; [eauto | congruence].
  - exact G.
Qed.

Lemma ext_add_nav t cp :
  (templated cp = false -> _id_map t !! uri cp = None) ->
  ext t (add_nav cp t).
Proof.
  intros Hfresh. split; simpl; try reflexivity.
  - intros p n H. exists n. split; [now apply lookup_app_l_Some | auto].
  - intros u p H. destruct (templated cp); [assumption|].
    rewrite lookup_insert_ne; [assumption|].
    intros <-. rewrite Hfresh in H by reflexivity. discriminate.
Qed.

Lemma wf_no_None_key t : wf t -> _id_map t !! None = None.
Proof.
  intros W. destruct (_id_map t !! None) as [p|] eqn:H; [|reflexivity].
  destruct (wf_id_map _ W _ _ H) as (n & Hn & Ht & Hu).
  destruct (wf_concrete _ W _ _ Hn Ht) as [_ [u Hu']]. congruence.
Qed.

Lemma set_template_uri_id n :
  template_uri n = None -> set_template_uri None n = n.
Proof. destruct n; simpl; intros ->; reflexivity. Qed.

Lemma with_navs_id t : with_navs (fun l => l) t = t.
Proof. destruct t; reflexivity. Qed.

(** The monad laws used to run a method step by step. *)
Lemma bind_ret {A B} (a : A) (k : A -> M B) : bind (ret a) k = k a.
Proof. reflexivity. Qed.

Lemma bind_raise {A B} (e : exn) (k : A -> M B) : bind (raise e) k = raise e.
Proof. reflexivity. Qed.

Lemma bind_run {A B} (m : M A) (k : A -> M B) t :
  bind m k t = match m t with Ok a t' => k a t' | Raise e t' => Raise e t' end.
Proof. reflexivity. Qed.

Lemma bind_Ok {A B} (m : M A) (k : A -> M B) t a t' :
  m t = Ok a t' -> bind m k t = k a t'.
Proof. intros H. unfold bind. now rewrite H. Qed.

Lemma bind_Raise {A B} (m : M A) (k : A -> M B) t e t' :
  m t = Raise e t' -> bind m k t = Raise e t'.
Proof. intros H. unfold bind. now rewrite H. Qed.

Lemma get_nav_Ok p n t : navs t !! p = Some n -> get_nav p t = Ok n t.
Proof. intros H. unfold get_nav. now rewrite H. Qed.

Lemma update_nav_ok p f n t :
  navs t !! p = Some n ->
  update_nav p f t = Ok tt (with_navs (fun l => <[p := f n]> l) t).
Proof. intros H. unfold update_nav, bind, get_nav. now rewrite H. Qed.

Lemma update_nav_same p f n t :
  navs t !! p = Some n -> f n = n -> update_nav p f t = Ok tt t.
Proof.
  intros H Hf. rewrite (update_nav_ok _ _ _ _ H), Hf.
  f_equal. destruct t; unfold with_navs; simpl in *. f_equal.
  now apply list_insert_id.
Qed.

(** [setattr] on the navigator [_copy] has just built. *)
Lemma update_nav_added f cp t :
  templated (f cp) = templated cp -> (templated cp = false -> uri (f cp) = uri cp) ->
  update_nav (length (navs t)) f (add_nav cp t) = Ok tt (add_nav (f cp) t).
Proof.
  intros Ht Hu.
  rewrite (update_nav_ok _ _ cp) by apply snoc_lookup_last.
  f_equal. unfold add_nav, with_navs; simpl.
  rewrite snoc_insert_last, Ht.
  destruct (templated cp); [reflexivity|]. now rewrite Hu.
Qed.

Lemma _copy_hit self kw u p t :
  kw_uri kw = Some u -> _id_map t !! u = Some p -> _copy self kw t = Ok p t.
Proof. intros Hk Hm. unfold _copy, bind, get_tree; simpl. now rewrite Hk, Hm. Qed.

Lemma _copy_miss self kw n t :
  match kw_uri kw with Some u => _id_map t !! u | None => None end = None ->
  navs t !! self = Some n ->
  _copy self kw t = Ok (length (navs t)) (add_nav (setattrs kw (blank_copy n)) t).
Proof.
  intros Hm Hn. unfold _copy, bind, get_tree; simpl. rewrite Hm.
  unfold get_nav. rewrite Hn. unfold alloc_nav, add_nav, ret, modify_tree, with_id_map, with_navs.
  simpl. destruct (templated (setattrs kw (blank_copy n))); reflexivity.
Qed.

Lemma _copy_dangling self kw t :
  match kw_uri kw with Some u => _id_map t !! u | None => None end = None ->
  navs t !! self = None ->
  _copy self kw t = Raise DanglingReference t.
Proof.
  intros Hm Hn. unfold _copy, bind, get_tree; simpl. rewrite Hm.
  unfold get_nav. now rewrite Hn.
Qed.

Lemma addable_wf t cp : wf t -> addable t cp -> wf (add_nav cp t).
Proof.
  intros W (Hl & Hs & Hc & Ht). apply wf_add_nav; auto.
  intros H. destruct (Hc H) as (? & ? & ?). auto.
Qed.

Lemma addable_ext t cp : addable t cp -> ext t (add_nav cp t).
Proof.
  intros (Hl & Hs & Hc & Ht). apply ext_add_nav.
  intros H. now destruct (Hc H) as (? & ? & ?).
Qed.

Lemma setattrs_links kw n : _links (setattrs kw n) = _links n.
Proof.
  unfold setattrs.
  destruct (kw_uri kw) as [[?|]|], (kw_template_uri kw), (kw_templated kw),
    (kw_rel kw), (kw_title kw), (kw_type kw), (kw_profile kw); reflexivity.
Qed.

Lemma setattrs_state kw n : state (setattrs kw n) = state n.
Proof.
  unfold setattrs.
  destruct (kw_uri kw) as [[?|]|], (kw_template_uri kw), (kw_templated kw),
    (kw_rel kw), (kw_title kw), (kw_type kw), (kw_profile kw); reflexivity.
Qed.

Lemma setattrs_response kw n : response (setattrs kw n) = response n.
Proof.
  unfold setattrs.
  destruct (kw_uri kw) as [[?|]|], (kw_template_uri kw), (kw_templated kw),
    (kw_rel kw), (kw_title kw), (kw_type kw), (kw_profile kw); reflexivity.
Qed.

Lemma setattrs_templated kw n :
  templated (setattrs kw n) = default (templated n) (kw_templated kw).
Proof.
  unfold setattrs.
  destruct (kw_uri kw) as [[?|]|], (kw_template_uri kw), (kw_templated kw),
    (kw_rel kw), (kw_title kw), (kw_type kw), (kw_profile kw); reflexivity.
Qed.

Lemma setattrs_uri kw n :
  uri (setattrs kw n)
  = match kw_uri kw with Some (Some u) => Some u | _ => uri n end.
Proof.
  unfold setattrs.
  destruct (kw_uri kw) as [[?|]|], (kw_template_uri kw), (kw_templated kw),
    (kw_rel kw), (kw_title kw), (kw_type kw), (kw_profile kw); reflexivity.
Qed.

Lemma setattrs_template_uri kw n :
  template_uri (setattrs kw n)
  = match kw_template_uri kw with Some v => Some v | None => template_uri n end.
Proof.
  unfold setattrs.
  destruct (kw_uri kw) as [[?|]|], (kw_template_uri kw), (kw_templated kw),
    (kw_rel kw), (kw_title kw), (kw_type kw), (kw_profile kw); reflexivity.
Qed.

(** [make_nav] on a link to a concrete resource whose uri the identity
    map holds: the navigator of the map, and the tree as it was. *)
Lemma make_nav_hit E self rel_name d href ttl typ prf t p :
  wf t -> link_ok d href ttl typ prf ->
  default false (link_get_templated d) = false ->
  _id_map t !! Some href = Some p ->
  make_nav E self rel_name (JDict d) t = Ok p t.
Proof.
  intros W (Hh & Ht & Hy & Hp) Hdef Hmap. unfold make_nav.
  rewrite Hh, Ht, Hy, Hp. simpl lift. rewrite !bind_ret. rewrite Hdef.
  erewrite bind_Ok; [| eapply _copy_hit; [reflexivity | eassumption]].
  destruct (wf_id_map _ W _ _ Hmap) as (m & Hm & Hmt & Hmu).
  destruct (wf_concrete _ W _ _ Hm Hmt) as [Htu _].
  erewrite bind_Ok; [reflexivity|].
  apply (update_nav_same _ _ m); auto using set_template_uri_id.
Qed.

(** The same when the identity map has no navigator for the uri: a new
    one is built and registered. *)
Lemma make_nav_miss E self rel_name d href ttl typ prf t n :
  link_ok d href ttl typ prf ->
  default false (link_get_templated d) = false ->
  navs t !! self = Some n -> _id_map t !! Some href = None ->
  make_nav E self rel_name (JDict d) t
  = Ok (length (navs t)) (add_nav (link_copy d rel_name href ttl typ prf n) t).
Proof.
  intros (Hh & Ht & Hy & Hp) Hdef Hn Hmap. unfold make_nav.
  rewrite Hh, Ht, Hy, Hp. simpl lift. rewrite !bind_ret. rewrite Hdef.
  erewrite bind_Ok; [| apply _copy_miss; [simpl; eassumption | eassumption]].
  erewrite bind_Ok; [| apply update_nav_added; [reflexivity | intros _; reflexivity]].
  reflexivity.
Qed.

Lemma make_nav_templated E self rel_name d href ttl typ prf t n :
  wf t -> link_ok d href ttl typ prf ->
  default false (link_get_templated d) = true ->
  navs t !! self = Some n ->
  make_nav E self rel_name (JDict d) t
  = Ok (length (navs t)) (add_nav (template_copy E rel_name href ttl typ prf n) t).
Proof.
  intros W (Hh & Ht & Hy & Hp) Hdef Hn. unfold make_nav.
  rewrite Hh, Ht, Hy, Hp. simpl lift. rewrite !bind_ret. rewrite Hdef.
  assert (Hkw : link_get_templated d = Some true).
  { destruct (link_get_templated d) as [[|]|]; simpl in Hdef; congruence. }
  rewrite Hkw.
  erewrite bind_Ok;
    [| apply _copy_miss; [simpl; now apply wf_no_None_key | eassumption]].
  set (cp := setattrs _ _).
  assert (Hcpt : templated cp = true)
    by (subst cp; now rewrite setattrs_templated).
  assert (Hcpu : template_uri cp = Some href)
    by (subst cp; now rewrite setattrs_template_uri).
  erewrite bind_Ok; [| apply update_nav_added; [reflexivity | congruence]].
  erewrite bind_Ok; [| apply get_nav_Ok, snoc_lookup_last].
  change (template_uri (set_uri None cp)) with (template_uri cp). rewrite Hcpu.
  erewrite bind_Ok; [| apply update_nav_added; [reflexivity | simpl; congruence]].
  reflexivity.
Qed.

Lemma link_copy_addable d rel_name href ttl typ prf t n :
  default false (link_get_templated d) = false -> templated n = false ->
  _id_map t !! Some href = None ->
  addable t (link_copy d rel_name href ttl typ prf n)
  /\ templated (link_copy d rel_name href ttl typ prf n) = false
  /\ uri (link_copy d rel_name href ttl typ prf n) = Some href.
Proof.
  intros Hdef Hnt Hmap.
  assert (Ht : templated (link_copy d rel_name href ttl typ prf n) = false).
  { unfold link_copy. change (templated (set_template_uri None ?x)) with (templated x).
    rewrite setattrs_templated. simpl.
    destruct (link_get_templated d) as [[|]|]; simpl in *; congruence. }
  assert (Hu : uri (link_copy d rel_name href ttl typ prf n) = Some href).
  { unfold link_copy. change (uri (set_template_uri None ?x)) with (uri x).
    now rewrite setattrs_uri. }
  split; [|auto]. unfold addable. rewrite Ht, Hu. split; [|split; [|split]].
  - unfold link_copy. change (_links (set_template_uri None ?x)) with (_links x).
    now rewrite setattrs_links.
  - unfold link_copy. change (state (set_template_uri None ?x)) with (state x).
    now rewrite setattrs_state.
  - intros _. split; [reflexivity|]. split; [eauto | assumption].
  - discriminate.
Qed.

Lemma template_copy_addable E rel_name href ttl typ prf t n :
  addable t (template_copy E rel_name href ttl typ prf n).
Proof.
  assert (Ht : templated (template_copy E rel_name href ttl typ prf n) = true).
  { unfold template_copy.
    change (templated (set_parameters ?v (set_uri None ?x))) with (templated x).
    now rewrite setattrs_templated. }
  unfold addable. rewrite Ht. split; [|split; [|split]].
  - unfold template_copy.
    change (_links (set_parameters ?v (set_uri None ?x))) with (_links x).
    now rewrite setattrs_links.
  - unfold template_copy.
    change (state (set_parameters ?v (set_uri None ?x))) with (state x).
    now rewrite setattrs_state.
  - discriminate.
  - intros _. unfold template_copy.
    change (template_uri (set_parameters ?v (set_uri None ?x))) with (template_uri x).
    rewrite setattrs_template_uri. simpl. eauto.
Qed.

(** The three ways [make_nav] ends on a well-formed tree: it raises before
    it touches the tree, it returns the navigator the identity map holds
    for the href and leaves the tree as it is, or it adds a navigator. *)
Lemma make_nav_cases E self rel_name link t n :
  wf t -> navs t !! self = Some n -> templated n = false ->
  (exists e, make_nav E self rel_name link t = Raise e t)
  \/ (exists p href, make_nav E self rel_name link t = Ok p t
                     /\ _id_map t !! Some href = Some p)
  \/ (exists cp, make_nav E self rel_name link t
                 = Ok (length (navs t)) (add_nav cp t) /\ addable t cp).
Proof.
  intros W Hn Hnt.
  destruct link as [a | l | d]; try (left; eexists; reflexivity).
  destruct (link_href d) as [e | href] eqn:Hh;
    [left; exists e; unfold make_nav; now rewrite Hh|].
  destruct (get_str "title" d) as [e | ttl] eqn:Ht;
    [left; exists e; unfold make_nav; now rewrite Hh, Ht|].
  destruct (get_str "type" d) as [e | typ] eqn:Hy;
    [left; exists e; unfold make_nav; now rewrite Hh, Ht, Hy|].
  destruct (get_str "profile" d) as [e | prf] eqn:Hp;
    [left; exists e; unfold make_nav; now rewrite Hh, Ht, Hy, Hp|].
  assert (Hok : link_ok d href ttl typ prf) by (repeat split; assumption).
  destruct (default false (link_get_templated d)) eqn:Hdef.
  - right; right. eexists. split.
    + eapply make_nav_templated; eassumption.
    + apply template_copy_addable.
  - destruct (_id_map t !! Some href) as [p|] eqn:Hmap.
    + right; left. exists p, href. split; [|assumption].
      eapply make_nav_hit; eassumption.
    + right; right. eexists. split.
      * eapply make_nav_miss; eassumption.
      * eapply link_copy_addable; eassumption.
Qed.

(** ** A program logic for the methods *)

Lemma stable_concrete p : stable (concrete p).
Proof.
  intros t t' X (n & Hn & Ht). destruct (ext_navs _ _ X _ _ Hn) as (n' & Hn' & Ht' & _).
  exists n'. split; congruence.
Qed.

Lemma stable_has_response p : stable (has_response p).
Proof.
  intros t t' X (n & Hn & Hr).
  destruct (ext_navs _ _ X _ _ Hn) as (n' & Hn' & _ & _ & Hr').
  exists n'. auto.
Qed.

Lemma stable_allocated p : stable (allocated p).
Proof. intros t t' X H. apply ext_length in X. unfold allocated in *. lia. Qed.

Lemma stable_links_allocated ls : stable (links_allocated ls).
Proof. intros t t' X H r c Hr. eapply stable_allocated; eauto. Qed.

Lemma stable_and F G : stable F -> stable G -> stable (fun t => F t /\ G t).
Proof. intros HF HG t t' X [? ?]. split; eauto. Qed.

Lemma stable_True : stable (fun _ => True).
Proof. intros t t' _ _. exact I. Qed.

Create HintDb stable.
#[local] Hint Resolve stable_concrete stable_has_response stable_allocated
  stable_links_allocated stable_and stable_True : stable.

Lemma good_ret {A} (P : Tree -> Prop) (a : A) (Q : A -> Tree -> Prop) :
  (forall t, wf t -> P t -> Q a t) -> good P (ret a) Q.
Proof. intros H t W HP. simpl. auto using ext_refl. Qed.

Lemma good_raise {A} (P : Tree -> Prop) e (Q : A -> Tree -> Prop) :
  good P (raise e) Q.
Proof. intros t W HP. simpl. auto using ext_refl. Qed.

Lemma good_bind {A B} P (m : M A) Q (k : A -> M B) R :
  good P m Q -> (forall a, good (Q a) (k a) R) -> good P (bind m k) R.
Proof.
  intros Hm Hk t W HP. destruct (Hm t W HP) as (W1 & X1 & HQ).
  unfold bind. destruct (m t) as [a t1 | e t1]; simpl in *.
  - destruct (Hk a t1 W1 HQ) as (W2 & X2 & HR).
    split; [assumption|]. split; [eapply ext_trans; eassumption | assumption].
  - auto.
Qed.

Lemma good_frame {A} P F (m : M A) Q :
  stable F -> good P m Q ->
  good (fun t => P t /\ F t) m (fun a t => Q a t /\ F t).
Proof.
  intros HF Hm t W [HP HFt]. destruct (Hm t W HP) as (W1 & X1 & HQ).
  split; [assumption|]. split; [assumption|].
  destruct (m t); simpl in *; [|exact I]. split; [assumption | eauto].
Qed.

Lemma good_conseq {A} (P P' : Tree -> Prop) (m : M A) (Q Q' : A -> Tree -> Prop) :
  (forall t, wf t -> P' t -> P t) -> (forall a t, wf t -> Q a t -> Q' a t) ->
  good P m Q -> good P' m Q'.
Proof.
  intros HP HQ Hm t W HP'. destruct (Hm t W (HP t W HP')) as (W1 & X1 & H).
  split; [assumption|]. split; [assumption|].
  destruct (m t); simpl in *; auto.
Qed.

Lemma good_assume {A} (phi : Prop) P (m : M A) Q :
  (phi -> good P m Q) -> good (fun t => phi /\ P t) m Q.
Proof. intros H t W [Hphi HP]. now apply H. Qed.

Lemma good_lift {A} P (r : exn + A) :
  good P (lift r) (fun a t => r = inr a /\ P t).
Proof. destruct r; [apply good_raise | apply good_ret; auto]. Qed.

Lemma good_get_nav P p :
  good P (get_nav p) (fun n t => navs t !! p = Some n /\ P t).
Proof.
  intros t W HP. unfold get_nav.
  destruct (navs t !! p) eqn:Hp; simpl; auto using ext_refl.
Qed.

Lemma good_get_tree P :
  good P get_tree (fun a t => a = t /\ P t).
Proof. intros t W HP. simpl. auto using ext_refl. Qed.

(** [setattr] of an attribute the invariant does not speak about. *)
Lemma good_update_plain P p f :
  stable P ->
  (forall n, templated (f n) = templated n /\ uri (f n) = uri n
             /\ template_uri (f n) = template_uri n /\ _links (f n) = _links n
             /\ state (f n) = state n
             /\ (is_Some (response n) -> is_Some (response (f n)))) ->
  good P (update_nav p f) (fun _ t => P t).
Proof.
  intros HS Hf t W HP. unfold update_nav, bind, get_nav.
  destruct (navs t !! p) as [n|] eqn:Hn; simpl; [|auto using ext_refl].
  destruct (Hf n) as (Ht & Hu & Htu & Hl & Hs & Hr).
  assert (X : ext t (with_navs (fun l => <[p := f n]> l) t))
    by (eapply ext_update; eauto).
  split; [|split; [assumption | eauto]].
  apply (wf_update_fields t p n (f n)); auto.
Qed.

Lemma good_http_get E P u : stable P -> good P (http_get E u) (fun _ t => P t).
Proof.
  intros HS t W HP. unfold http_get. destruct u as [s|]; [|simpl; auto using ext_refl].
  unfold bind, get_tree, modify_tree, lift. simpl.
  assert (X := ext_with_requests s t).
  destruct (requests_get E (requests t) s); simpl;
    (split; [now apply wf_with_requests | split; [assumption | eauto]]).
Qed.

Lemma good_make_nav E self rel_name link :
  good (concrete self) (make_nav E self rel_name link) (fun p t => allocated p t).
Proof.
  intros t W (n & Hn & Ht).
  destruct (make_nav_cases E self rel_name link t n W Hn Ht)
    as [[e ->] | [(p & href & -> & Hp) | (cp & -> & Hcp)]]; simpl.
  - auto using ext_refl.
  - split; [assumption|]. split; [apply ext_refl|].
    destruct (wf_id_map _ W _ _ Hp) as (m & Hm & _).
    eapply lookup_lt_Some; eassumption.
  - split; [now apply addable_wf|]. split; [now apply addable_ext|].
    unfold allocated, add_nav. simpl. rewrite length_app. simpl. lia.
Qed.

Lemma good_make_navs E self items :
  forall acc,
    good (fun t => concrete self t /\ links_allocated acc t)
         (make_navs E self items acc)
         (fun made t => links_allocated made t).
Proof.
  induction items as [|[rel_name link] rest IH]; intros acc; simpl.
  - apply good_ret. tauto.
  - destruct (String.eqb rel_name "self"); [apply IH|].
    eapply good_bind.
    + eapply good_conseq; [| | apply (good_frame (concrete self) (fun t => concrete self t /\ links_allocated acc t)); [auto with stable | apply good_make_nav]].
      * simpl. tauto.
      * simpl. intros a t _ H. exact H.
    + intros cp. simpl. eapply good_conseq; [| | apply IH].
      * simpl. intros t _ (Hcp & Hc & Hacc). split; [assumption|].
        intros r c Hr. destruct (decide (rel_name = r)) as [<-|Hne].
        -- rewrite lookup_insert_eq in Hr. congruence.
        -- rewrite lookup_insert_ne in Hr by assumption. eauto.
      * auto.
Qed.

(** ** Documents in the store *)

(** Building the objects of a document only adds to the store. *)
Lemma alloc_json_prefix : forall j h, h `prefix_of` (alloc_json j h).2.
Proof.
  fix alloc_json_prefix 1.
  intros j. destruct j as [a | l | d]; intros h; simpl.
  - reflexivity.
  - match goal with |- context [?g l h] => set (go := g) end.
    assert (Hgo : forall h, h `prefix_of` (go l h).2).
    { clear h. induction l as [|x l IH]; intros h; simpl.
      - reflexivity.
      - specialize (alloc_json_prefix x h).
        destruct (alloc_json x h) as [v h1]. simpl in *.
        specialize (IH h1). destruct (go l h1) as [vs h2]. simpl in *.
        etransitivity; eassumption. }
    specialize (Hgo h). destruct (go l h) as [vs h']. simpl in *.
    now apply prefix_app_r.
  - match goal with |- context [?g d h] => set (go := g) end.
    assert (Hgo : forall h, h `prefix_of` (go d h).2).
    { clear h. induction d as [|[k x] d IH]; intros h; simpl.
      - reflexivity.
      - specialize (alloc_json_prefix x h).
        destruct (alloc_json x h) as [v h1]. simpl in *.
        specialize (IH h1). destruct (go d h1) as [kvs h2]. simpl in *.
        etransitivity; eassumption. }
    specialize (Hgo h). destruct (go d h) as [kvs h']. simpl in *.
    now apply prefix_app_r.
Qed.

Lemma alloc_items_prefix d : forall h, h `prefix_of` (alloc_items d h).2.
Proof.
  induction d as [|[k x] d IH]; intros h; simpl.
  - reflexivity.
  - assert (H1 := alloc_json_prefix x h).
    destruct (alloc_json x h) as [v h1]. simpl in *.
    specialize (IH h1). destruct (alloc_items d h1) as [kvs h2]. simpl in *.
    etransitivity; eassumption.
Qed.

Lemma value_below_mono l l' v : l <= l' -> value_below l v -> value_below l' v.
Proof. destruct v; simpl; [auto | lia]. Qed.

Lemma refs_below_mono l l' o : l <= l' -> refs_below l o -> refs_below l' o.
Proof.
  intros Hle. destruct o; simpl; intros H; (eapply Forall_impl; [exact H|]);
    intros ?; now apply value_below_mono.
Qed.

Lemma closed_snoc h o : closed h -> refs_below (length h) o -> closed (h ++ [o]).
Proof.
  intros Hc Ho l o' Hl. apply lookup_snoc_Some in Hl.
  destruct Hl as [[_ Hl] | [-> <-]]; [eauto | assumption].
Qed.

(** The objects of a document refer to older objects only. *)
Lemma alloc_json_closed :
  forall j h, closed h ->
    closed (alloc_json j h).2
    /\ value_below (length (alloc_json j h).2) (alloc_json j h).1.
Proof.
  fix alloc_json_closed 1.
  intros j. destruct j as [a | l | d]; intros h Hc; simpl.
  - split; [assumption | exact I].
  - match goal with |- context [?g l h] => set (go := g) end.
    assert (Hgo : forall h, closed h ->
              closed (go l h).2 /\ Forall (value_below (length (go l h).2)) (go l h).1).
    { clear h Hc. induction l as [|x l IH]; intros h Hc; simpl.
      - split; [assumption | constructor].
      - destruct (alloc_json_closed x h Hc) as [Hc1 Hv].
        destruct (alloc_json x h) as [v h1]. simpl in *.
        destruct (IH h1 Hc1) as [Hc2 Hvs].
        assert (Hpre : h1 `prefix_of` (go l h1).2).
        { clear. revert h1. induction l as [|y l IHl]; intros h1; simpl; [reflexivity|].
          assert (Hy := alloc_json_prefix y h1).
          destruct (alloc_json y h1) as [w h2]. simpl in *.
          specialize (IHl h2). destruct (go l h2) as [ws h3]. simpl in *.
          etransitivity; eassumption. }
        destruct (go l h1) as [vs h2]. simpl in *.
        split; [assumption|]. constructor; [|assumption].
        eapply value_below_mono; [|eassumption]. now apply prefix_length. }
    destruct (Hgo h Hc) as [Hc' Hvs]. destruct (go l h) as [vs h']. simpl in *.
    split.
    + now apply closed_snoc.
    + rewrite length_app. simpl. lia.
  - match goal with |- context [?g d h] => set (go := g) end.
    assert (Hgo : forall h, closed h ->
              closed (go d h).2
              /\ Forall (fun kv => value_below (length (go d h).2) kv.2) (go d h).1).
    { clear h Hc. induction d as [|[k x] d IH]; intros h Hc; simpl.
      - split; [assumption | constructor].
      - destruct (alloc_json_closed x h Hc) as [Hc1 Hv].
        destruct (alloc_json x h) as [v h1]. simpl in *.
        destruct (IH h1 Hc1) as [Hc2 Hvs].
        assert (Hpre : h1 `prefix_of` (go d h1).2).
        { clear. revert h1. induction d as [|[k' y] d IHd]; intros h1; simpl; [reflexivity|].
          assert (Hy := alloc_json_prefix y h1).
          destruct (alloc_json y h1) as [w h2]. simpl in *.
          specialize (IHd h2). destruct (go d h2) as [ws h3]. simpl in *.
          etransitivity; eassumption. }
        destruct (go d h1) as [kvs h2]. simpl in *.
        split; [assumption|]. constructor; [|assumption].
        simpl. eapply value_below_mono; [|eassumption]. now apply prefix_length. }
    destruct (Hgo h Hc) as [Hc' Hvs]. destruct (go d h) as [kvs h']. simpl in *.
    split.
    + now apply closed_snoc.
    + rewrite length_app. simpl. lia.
Qed.

Lemma alloc_items_closed d :
  forall h, closed h ->
    closed (alloc_items d h).2
    /\ Forall (fun kv => value_below (length (alloc_items d h).2) kv.2)
              (alloc_items d h).1.
Proof.
  induction d as [|[k x] d IH]; intros h Hc; simpl.
  - split; [assumption | constructor].
  - destruct (alloc_json_closed x h Hc) as [Hc1 Hv].
    destruct (alloc_json x h) as [v h1]. simpl in *.
    destruct (IH h1 Hc1) as [Hc2 Hvs].
    assert (Hpre := alloc_items_prefix d h1).
    destruct (alloc_items d h1) as [kvs h2]. simpl in *.
    split; [assumption|]. constructor; [|assumption].
    simpl. eapply value_below_mono; [|eassumption]. now apply prefix_length.
Qed.

(** ** The methods keep the tree well formed *)

(** The last statement of [_GET]: the state dict is built and stored. *)
Lemma good_store_state P self (d : list (string * json)) :
  stable P ->
  good P
    (t <- get_tree ;;
     let '(kvs, h) := alloc_items d (objs t) in
     modify_tree (with_objs (fun _ => h)) ;;;
     st <- alloc_obj (ODict kvs) ;;
     update_nav self (set_state (Some st)))
    (fun _ t => P t).
Proof.
  intros HS t W HP.
  destruct (alloc_items d (objs t)) as [kvs h] eqn:Halloc.
  assert (Hpre : objs t `prefix_of` h).
  { pose proof (alloc_items_prefix d (objs t)) as H. now rewrite Halloc in H. }
  set (t1 := with_objs (fun l => l ++ [ODict kvs]) (with_objs (fun _ => h) t)).
  assert (Hpre1 : objs t `prefix_of` h ++ [ODict kvs]) by now apply prefix_app_r.
  assert (Hcl : closed (h ++ [ODict kvs])).
  { pose proof (alloc_items_closed d (objs t) (wf_objs _ W)) as [H1 H2].
    rewrite Halloc in H1, H2. simpl in H1, H2. now apply closed_snoc. }
  assert (W1 : wf t1) by (apply (wf_with_objs (h ++ [ODict kvs]) t); assumption).
  assert (X1 : ext t t1) by (apply (ext_with_objs (h ++ [ODict kvs]) t); assumption).
  match goal with |- context [tree_of (?m t)] =>
    assert (Hrun : m t = update_nav self (set_state (Some (length h))) t1)
  end.
  { unfold bind at 1. unfold get_tree. rewrite Halloc. reflexivity. }
  rewrite Hrun. clear Hrun.
  destruct (navs t !! self) as [n|] eqn:Hn.
  - rewrite (update_nav_ok _ _ n) by exact Hn. simpl tree_of.
    assert (X2 : ext t1 (with_navs (fun l => <[self := set_state (Some (length h)) n]> l) t1)).
    { eapply ext_update; eauto. }
    assert (X : ext t (with_navs (fun l => <[self := set_state (Some (length h)) n]> l) t1))
      by (eapply ext_trans; eassumption).
    split; [|split; [exact X | eauto]].
    apply (wf_update_fields t1 self n (set_state (Some (length h)) n)); auto.
    right. exists (length h), kvs. split; [reflexivity|].
    simpl. apply snoc_lookup_last.
  - unfold update_nav, bind, get_nav. simpl navs. rewrite Hn. simpl. auto.
Qed.

(** [_GET]: on return the navigator has a response. *)
Lemma good__GET E self :
  good (fun _ => True) (_GET E self) (fun _ t => has_response self t).
Proof.
  unfold _GET. eapply good_bind; [apply good_get_nav|].
  intros n. simpl. destruct (templated n) eqn:Ht; [apply good_raise|].
  eapply good_conseq with (P := concrete self) (Q := fun _ t => has_response self t);
    [intros t _ [H _]; exists n; auto | auto |].
  eapply good_bind; [apply good_http_get; auto with stable|].
  intros resp. simpl.
  eapply good_bind.
  { (* the response is stored *)
    instantiate (1 := fun _ t => concrete self t /\ has_response self t).
    intros t W HP. destruct HP as (m & Hm & Hmt).
    rewrite (update_nav_ok _ _ m) by assumption. simpl.
    assert (X : ext t (with_navs (fun l => <[self := set_response (Some resp) m]> l) t)).
    { eapply ext_update; eauto. }
    split; [|split; [assumption|]].
    - apply (wf_update_fields t self m (set_response (Some resp) m)); auto.
    - assert (Hlt := lookup_lt_Some _ _ _ Hm). split.
      + exists (set_response (Some resp) m). simpl.
        rewrite list_lookup_insert_eq by assumption. auto.
      + exists (set_response (Some resp) m). simpl.
        rewrite list_lookup_insert_eq by assumption. eauto. }
  intros ?. simpl.
  eapply good_bind; [apply good_lift|].
  intros links. simpl.
  eapply good_bind.
  { eapply good_conseq;
      [| | apply (good_frame (fun t => concrete self t /\ links_allocated ∅ t)
                              (fun t => concrete self t /\ has_response self t));
           [auto with stable | apply good_make_navs]].
    - simpl. intros t _ [_ [Hc Hr]]. repeat split; auto.
      intros r c Hrc. rewrite lookup_empty in Hrc. discriminate.
    - simpl. intros x t _ H. exact H. }
  intros made. simpl.
  eapply good_bind.
  { (* the links are stored *)
    instantiate (1 := fun _ t => has_response self t).
    intros t W (Hmade & (m & Hm & Hmt) & Hresp).
    rewrite (update_nav_ok _ _ m) by assumption. simpl.
    assert (X : ext t (with_navs (fun l => <[self := set_links (Some made) m]> l) t)).
    { eapply ext_update; eauto. }
    split; [|split; [assumption|]].
    - apply (wf_update_fields t self m (set_links (Some made) m)); auto.
      right. exists made. split; [reflexivity | exact Hmade].
    - eapply stable_has_response; eassumption. }
  intros ?. simpl.
  eapply good_bind; [apply good_get_nav|].
  intros n1. simpl.
  eapply good_bind; [apply good_lift|].
  intros new_title. simpl.
  eapply good_bind.
  { eapply good_conseq; [| | apply (good_update_plain (has_response self))].
    - simpl. intros t _ (_ & _ & H). exact H.
    - simpl. intros x t _ H. exact H.
    - auto with stable.
    - intros m. simpl. repeat split; auto. }
  intros ?. simpl.
  apply good_store_state. auto with stable.
Qed.

(** *** [expand], case by case *)

Lemma expand_not_templated E self keep kwargs t n :
  navs t !! self = Some n -> templated n = false ->
  expand E self keep kwargs t
  = Raise (TypeError "This Navigator isn't templated! You can't expand it.") t.
Proof.
  intros Hn Ht. unfold expand. rewrite (bind_Ok _ _ _ _ _ (get_nav_Ok _ _ _ Hn)).
  now rewrite Ht.
Qed.

Lemma expand_miss E self keep kwargs t n tu :
  navs t !! self = Some n -> templated n = true -> template_uri n = Some tu ->
  let kw := merged_kwargs (template_args n) kwargs in
  let u := uritemplate_expand E tu kw in
  _id_map t !! Some u = None ->
  expand E self keep kwargs t
  = Ok (length (navs t)) (add_nav (expanded_copy keep kw u n) t).
Proof.
  intros Hn Ht Htu kw u Hmiss. unfold expand.
  rewrite (bind_Ok _ _ _ _ _ (get_nav_Ok _ _ _ Hn)). rewrite Ht, Htu. change (negb true) with false. cbv beta iota zeta.
  fold kw. fold u.
  erewrite bind_Ok; [| apply _copy_miss; [simpl; exact Hmiss | exact Hn]].
  unfold expanded_copy. destruct keep; cbn [negb]; cbv iota.
  - erewrite bind_Ok; [reflexivity|].
    apply update_nav_added; reflexivity.
  - erewrite bind_Ok; [reflexivity|].
    erewrite bind_Ok; [| apply update_nav_added; reflexivity].
    apply update_nav_added; reflexivity.
Qed.

Lemma expand_hit E self keep kwargs t n tu p m :
  navs t !! self = Some n -> templated n = true -> template_uri n = Some tu ->
  let kw := merged_kwargs (template_args n) kwargs in
  let u := uritemplate_expand E tu kw in
  _id_map t !! Some u = Some p -> navs t !! p = Some m ->
  expand E self keep kwargs t
  = Ok p (with_navs (fun l => <[p := expanded_existing keep kw m]> l) t).
Proof.
  intros Hn Ht Htu kw u Hhit Hm. unfold expand.
  rewrite (bind_Ok _ _ _ _ _ (get_nav_Ok _ _ _ Hn)). rewrite Ht, Htu. change (negb true) with false. cbv beta iota zeta.
  fold kw. fold u.
  erewrite bind_Ok; [| eapply _copy_hit; [reflexivity | exact Hhit]].
  assert (Hlt := lookup_lt_Some _ _ _ Hm).
  unfold expanded_existing. destruct keep; cbn [negb]; cbv iota.
  - erewrite bind_Ok; [reflexivity|]. apply update_nav_ok. exact Hm.
  - erewrite bind_Ok; [reflexivity|].
    erewrite bind_Ok; [| apply update_nav_ok; exact Hm].
    erewrite update_nav_ok;
      [| simpl; apply list_lookup_insert_eq; exact Hlt].
    f_equal. unfold with_navs; simpl. f_equal.
    apply list_insert_insert_eq.
Qed.

Lemma good_expand E self keep kwargs :
  good (fun _ => True) (expand E self keep kwargs) (fun p t => allocated p t).
Proof.
  intros t W _.
  destruct (navs t !! self) as [n|] eqn:Hn.
  2:{ unfold expand, bind, get_nav. rewrite Hn. simpl. auto using ext_refl. }
  destruct (templated n) eqn:Ht.
  2:{ rewrite (expand_not_templated _ _ _ _ _ _ Hn Ht). simpl. auto using ext_refl. }
  destruct (wf_templated _ W _ _ Hn Ht) as [tu Htu].
  set (kw := merged_kwargs (template_args n) kwargs).
  set (u := uritemplate_expand E tu kw).
  destruct (_id_map t !! Some u) as [p|] eqn:Hmap.
  - destruct (wf_id_map _ W _ _ Hmap) as (m & Hm & Hmt & Hmu).
    rewrite (expand_hit _ _ _ _ _ _ _ _ _ Hn Ht Htu Hmap Hm). simpl.
    assert (Htu' : template_uri (expanded_existing keep kw m) = template_uri m).
    { unfold expanded_existing. destruct keep; simpl; [reflexivity|].
      symmetry. exact (proj1 (wf_concrete _ W _ _ Hm Hmt)). }
    split; [|split].
    + apply (wf_update_fields t p m); auto;
        unfold expanded_existing; destruct keep; auto.
    + eapply ext_update; eauto; unfold expanded_existing; destruct keep; auto.
    + unfold allocated. simpl. rewrite length_insert. eapply lookup_lt_Some; eauto.
  - rewrite (expand_miss _ _ _ _ _ _ _ Hn Ht Htu Hmap). simpl.
    assert (Hadd : addable t (expanded_copy keep kw u n)).
    { unfold addable, expanded_copy. destruct keep; simpl; repeat split; eauto; try congruence. }
    split; [now apply addable_wf|]. split; [now apply addable_ext|].
    unfold allocated. simpl. rewrite length_app. simpl. lia.
Qed.

(** *** The composed methods *)

Lemma good_autofetch {A} E self P (fn : M A) Q :
  stable P -> good P fn Q -> good P (autofetch E self fn) Q.
Proof.
  intros HS Hfn. unfold autofetch.
  eapply good_bind; [apply good_get_nav|].
  intros n. simpl. destruct (response n).
  - eapply good_conseq; [| | exact Hfn]; simpl; [tauto | auto].
  - eapply good_bind.
    + eapply good_conseq;
        [| | apply (good_frame (fun _ => True) P); [exact HS | apply good__GET]].
      * simpl. tauto.
      * simpl. intros x t _ H. exact H.
    + intros ?. simpl. eapply good_conseq; [| | exact Hfn]; simpl; [tauto | auto].
Qed.

Lemma good_links E self :
  good (fun _ => True) (links E self)
       (fun ls t => forall d, ls = Some d -> links_allocated d t).
Proof.
  unfold links. apply good_autofetch; [auto with stable|].
  eapply good_bind; [apply good_get_nav|].
  intros n. simpl. intros t W [Hn _]. simpl.
  split; [assumption|]. split; [apply ext_refl|].
  intros d Hd r c Hr. exact (wf_links _ W _ _ _ _ _ Hn Hd Hr).
Qed.

Lemma setattrs_no_kwargs n : setattrs no_kwargs n = n.
Proof. reflexivity. Qed.

(** The copy of a templated navigator that [dereference] returns. *)
Lemma _copy_templated self t n :
  wf t -> navs t !! self = Some n -> templated n = true ->
  _copy self no_kwargs t = Ok (length (navs t)) (add_nav (blank_copy n) t)
  /\ addable t (blank_copy n).
Proof.
  intros W Hn Ht. split.
  - rewrite (_copy_miss self no_kwargs n) by (reflexivity || assumption).
    reflexivity.
  - unfold addable. simpl. repeat split; try congruence.
    intros _. eapply wf_templated; eauto.
Qed.

Lemma good_dereference_one E n rel_name :
  good (fun _ => True) (dereference_one E n rel_name) (fun p t => allocated p t).
Proof.
  unfold dereference_one. apply good_autofetch; [auto with stable|].
  eapply good_bind; [apply good_links|].
  intros [d|]; simpl; [|apply good_raise].
  destruct (d !! rel_name) as [found|] eqn:Hf; [|apply good_raise].
  eapply good_bind; [apply good_get_nav|].
  intros m. simpl. destruct (templated m) eqn:Hmt.
  - intros t W [Hm _].
    destruct (_copy_templated found t m W Hm Hmt) as [-> Hadd]. simpl.
    split; [now apply addable_wf|]. split; [now apply addable_ext|].
    unfold allocated. simpl. rewrite length_app. simpl. lia.
  - apply good_ret. intros t W [Hm _]. eapply lookup_lt_Some; eassumption.
Qed.

Lemma good_dereference E rels :
  forall n, good (fun _ => True) (dereference E n rels) (fun p t => allocated p t).
Proof.
  induction rels as [|r rest IH]; intros n.
  - simpl. apply good_autofetch; [auto with stable | apply good_raise].
  - destruct rest as [|r' rest'].
    + apply good_dereference_one.
    + change (dereference E n (r :: r' :: rest'))
        with (autofetch E n (n' <- dereference_one E n r ;; dereference E n' (r' :: rest'))).
      apply good_autofetch; [auto with stable|].
      eapply good_bind; [apply good_dereference_one|].
      intros n'. eapply good_conseq; [| | apply IH]; simpl; auto.
Qed.

Lemma good___getitem__ E self getitem_args :
  good (fun t => allocated self t) (__getitem__ E self getitem_args)
       (fun p t => allocated p t).
Proof.
  unfold __getitem__.
  destruct (rest_navigator_utils.normalize_getitem_args getitem_args)
    as [e | [[[rels qargs] slug] ellipsis]]; [apply good_raise|].
  destruct (slug && ellipsis); [apply good_raise|].
  eapply good_bind.
  - instantiate (1 := fun p t => allocated p t).
    destruct rels as [|r rest].
    + apply good_ret. auto.
    + eapply good_conseq; [| | apply good_dereference]; simpl; auto.
  - intros n. simpl.
    destruct (negb (bool_decide (qargs = ∅)) || slug).
    + destruct (bool_decide ("_keep_templated" ∈ dom qargs)); [apply good_raise|].
      eapply good_conseq; [| | apply good_expand]; simpl; auto.
    + apply good_ret. auto.
Qed.

Lemma good_try_except {A} P (m : M A) catches handler Q :
  good P m Q -> good (fun _ => True) handler Q ->
  good P (try_except m catches handler) Q.
Proof.
  intros Hm Hh t W HP. destruct (Hm t W HP) as (W1 & X1 & HQ).
  unfold try_except. destruct (m t) as [a t1 | e t1]; simpl in *; [auto|].
  destruct (catches e); simpl; [|auto].
  destruct (Hh t1 W1 I) as (W2 & X2 & HR).
  split; [assumption|]. split; [eapply ext_trans; eassumption | assumption].
Qed.

Lemma good_next E self :
  good (fun t => allocated self t) (next E self) (fun p t => allocated p t).
Proof.
  unfold next. apply good_try_except; [apply good___getitem__ | apply good_raise].
Qed.

Lemma good___iter__ E fuel :
  forall last, good (fun t => allocated last t) (__iter__ E fuel last)
                    (fun r t => forall p, p ∈ r.1 -> allocated p t).
Proof.
  induction fuel as [|fuel IH]; intros last.
  - simpl. apply good_ret. simpl. intros t _ _ p Hp. inversion Hp.
  - intros t W HP. simpl.
    destruct (good_next E last t W HP) as (W1 & X1 & HQ).
    destruct (next E last t) as [current t1 | e t1]; simpl in *.
    + destruct (IH current t1 W1 HQ) as (W2 & X2 & HR).
      unfold bind. destruct (__iter__ E fuel current t1) as [[more fin] t2 | e t2];
        simpl in *.
      * split; [assumption|]. split; [eapply ext_trans; eassumption|].
        intros p Hp. apply elem_of_cons in Hp. destruct Hp as [-> | Hp]; [|auto].
        eapply stable_allocated; eassumption.
      * split; [assumption|]. split; [eapply ext_trans; eassumption | exact I].
    + destruct e; simpl; auto.
      split; [assumption|]. split; [assumption|].
      intros p Hp. inversion Hp.
Qed.

Lemma alloc_obj_sound o t :
  wf t -> refs_below (length (objs t)) o ->
  wf (with_objs (fun l => l ++ [o]) t) /\ ext t (with_objs (fun l => l ++ [o]) t).
Proof.
  intros W Ho.
  assert (Hp : objs t `prefix_of` objs t ++ [o]) by (apply prefix_app_r; reflexivity).
  assert (Hcl : closed (objs t ++ [o])).
  { apply closed_snoc; [exact (wf_objs _ W) | assumption]. }
  split; [exact (wf_with_objs _ t Hp Hcl W) | exact (ext_with_objs _ t Hp)].
Qed.

Lemma good___call__ E self :
  good (fun _ => True) (__call__ E self) (fun _ _ => True).
Proof.
  unfold __call__, state_copy. apply good_autofetch; [auto with stable|].
  eapply good_bind; [apply good_get_nav|].
  intros n. simpl. destruct (state n) as [st|]; [|apply good_raise].
  eapply good_bind; [apply good_get_tree|].
  intros t0. simpl. destruct (objs t0 !! st) as [[elems | items]|] eqn:Hst;
    try apply good_raise.
  intros t W [<- _]. unfold alloc_obj. simpl.
  destruct (alloc_obj_sound (ODict items) t0 W) as [W' X]; [|auto].
  apply (refs_below_mono st).
  - apply lookup_lt_Some in Hst. lia.
  - exact (wf_objs _ W _ _ Hst).
Qed.

(** ** The life of a tree *)

Lemma wf_init root_arg name_arg p t :
  __init__ root_arg name_arg = inr (p, t) ->
  wf t /\ p = 0 /\ length (navs t) = 1 /\ concrete p t.
Proof.
  unfold __init__. destruct (fix_scheme root_arg) as [e | r]; [discriminate|].
  intros H. injection H as <- <-. split; [|repeat split].
  - split; simpl.
    + intros u q Hq. apply lookup_singleton_Some in Hq. destruct Hq as [<- <-].
      eexists. split; [reflexivity|]. auto.
    + intros q n Hq _. apply list_lookup_singleton_Some in Hq.
      destruct Hq as [-> <-]. simpl. eauto.
    + intros q n Hq Ht. apply list_lookup_singleton_Some in Hq.
      destruct Hq as [-> <-]. discriminate.
    + intros q n ls k c Hq Hl. apply list_lookup_singleton_Some in Hq.
      destruct Hq as [-> <-]. discriminate.
    + intros q n s Hq Hs. apply list_lookup_singleton_Some in Hq.
      destruct Hq as [-> <-]. discriminate.
    + intros l o Hl. rewrite lookup_nil in Hl. discriminate.
  - eexists. split; reflexivity.
Qed.

Lemma wf_collect held t t' : wf t -> collect held t t' -> wf t'.
Proof.
  intros [A B C D F G] (Hn & Ho & Hr & Hsub & Hheld).
  split; rewrite ?Hn, ?Ho; try assumption.
  intros u p Hp. apply A. eapply lookup_weaken; eassumption.
Qed.

(** A step keeps the tree well formed, and keeps the entries of the
    identity map whose navigator is held. *)
Lemma step_sound E held t t' :
  step E held t t' -> wf t ->
  wf t' /\ forall u p, _id_map t !! u = Some p -> held p -> _id_map t' !! u = Some p.
Proof.
  intros Hs W. destruct Hs as [t t' Hc | self t | self t | self t
                               | self keep kwargs t | self args t Hv | fuel self t Hv].
  - split; [eapply wf_collect; eassumption|].
    destruct Hc as (_ & _ & _ & _ & Hheld). exact Hheld.
  - destruct (good__GET E self t W I) as (W' & X & _).
    split; [assumption|]. intros u p Hp _. exact (ext_id_map _ _ X u p Hp).
  - destruct (good_links E self t W I) as (W' & X & _).
    split; [assumption|]. intros u p Hp _. exact (ext_id_map _ _ X u p Hp).
  - destruct (good___call__ E self t W I) as (W' & X & _).
    split; [assumption|]. intros u p Hp _. exact (ext_id_map _ _ X u p Hp).
  - destruct (good_expand E self keep kwargs t W I) as (W' & X & _).
    split; [assumption|]. intros u p Hp _. exact (ext_id_map _ _ X u p Hp).
  - destruct (good___getitem__ E self args t W Hv) as (W' & X & _).
    split; [assumption|]. intros u p Hp _. exact (ext_id_map _ _ X u p Hp).
  - destruct (good___iter__ E fuel self t W Hv) as (W' & X & _).
    split; [assumption|]. intros u p Hp _. exact (ext_id_map _ _ X u p Hp).
Qed.

Lemma steps_sound E held t t' :
  rtc (step E held) t t' -> wf t ->
  wf t' /\ forall u p, _id_map t !! u = Some p -> held p -> _id_map t' !! u = Some p.
Proof.
  induction 1 as [t | t t1 t2 Hs _ IH]; intros W; [auto|].
  destruct (step_sound _ _ _ _ Hs W) as [W1 K1].
  destruct (IH W1) as [W2 K2]. split; [assumption|]. auto.
Qed.

(** Every tree that the methods and the collector make of the tree of a
    new root is well formed. *)
Lemma reachable_wf E held root_arg name_arg p t0 t :
  __init__ root_arg name_arg = inr (p, t0) -> rtc (step E held) t0 t -> wf t.
Proof.
  intros Hinit Hsteps. destruct (wf_init _ _ _ _ Hinit) as [W0 _].
  exact (proj1 (steps_sound _ _ _ _ Hsteps W0)).
Qed.

(** A lookup of [U] when the identity map holds a navigator for [U]. *)
Lemma looks_up_hit E U t m q :
  wf t -> looks_up E U t m -> _id_map t !! Some U = Some q ->
  exists t1, m t = Ok q t1.
Proof.
  intros W L Hq. destruct L as [self n rel_name d ttl typ prf Hn Hnt Hh Ht Hy Hp Hdef
                               | self n tu kwargs Hn Hnt Htu HU].
  - exists t. eapply make_nav_hit; [assumption | repeat split; eassumption | eassumption..].
  - destruct (wf_id_map _ W _ _ Hq) as (m & Hm & _).
    eexists. subst U. eapply expand_hit; eassumption.
Qed.

(** A lookup of [U] when the identity map holds none. *)
Lemma looks_up_miss E U t m :
  wf t -> looks_up E U t m -> _id_map t !! Some U = None ->
  exists cp, m t = Ok (length (navs t)) (add_nav cp t)
             /\ uri cp = Some U /\ templated cp = false.
Proof.
  intros W L Hq. destruct L as [self n rel_name d ttl typ prf Hn Hnt Hh Ht Hy Hp Hdef
                               | self n tu kwargs Hn Hnt Htu HU].
  - eexists. split.
    + eapply make_nav_miss; [repeat split; eassumption | eassumption..].
    + destruct (link_copy_addable d rel_name U ttl typ prf t n Hdef Hnt Hq)
        as (_ & ? & ?). auto.
  - eexists. split.
    + subst U. eapply expand_miss; eassumption.
    + subst U. split; reflexivity.
Qed.

Lemma looks_up_good E U t m :
  wf t -> looks_up E U t m -> wf (tree_of (m t)).
Proof.
  intros W L. destruct L as [self n rel_name d ttl typ prf Hn Hnt Hh Ht Hy Hp Hdef
                             | self n tu kwargs Hn Hnt Htu HU].
  - apply (good_make_nav E self rel_name (JDict d) t W). exists n. auto.
  - apply (good_expand E self false kwargs t W I).
Qed.

(** C1: a lookup of the uri [U] through the identity map (the construction
    of the navigator for a link to [U], or the final expansion of a
    template to [U]) returns a navigator the map then holds for [U]; it is
    the one the map held before if there was one, and a newly built,
    registered one otherwise; and as long as that navigator is held, every
    later lookup of [U] in the tree, whatever the methods called and the
    entries collected in between, returns the same navigator. *)
Theorem identity_map_lookup E (held : loc -> Prop) U t m :
  wf t -> looks_up E U t m ->
  exists p t1,
    m t = Ok p t1 /\ _id_map t1 !! Some U = Some p
    /\ (forall q, _id_map t !! Some U = Some q -> p = q)
    /\ (_id_map t !! Some U = None ->
        navs t !! p = None
        /\ exists cp, navs t1 !! p = Some cp /\ uri cp = Some U /\ templated cp = false)
    /\ (forall t2 m2, held p -> rtc (step E held) t1 t2 -> looks_up E U t2 m2 ->
        exists t3, m2 t2 = Ok p t3).
Proof.
  intros W L. assert (W1 := looks_up_good E U t m W L).
  assert (Hlater : forall p t1, m t = Ok p t1 -> _id_map t1 !! Some U = Some p ->
            forall t2 m2, held p -> rtc (step E held) t1 t2 -> looks_up E U t2 m2 ->
            exists t3, m2 t2 = Ok p t3).
  { intros p t1 Hrun Hp t2 m2 Hheld Hsteps L2. rewrite Hrun in W1. simpl in W1.
    destruct (steps_sound _ _ _ _ Hsteps W1) as [W2 K].
    eapply looks_up_hit; eauto. }
  destruct (_id_map t !! Some U) as [q|] eqn:Hq.
  - destruct (looks_up_hit E U t m q W L Hq) as [t1 Hrun].
    assert (Hq1 : _id_map t1 !! Some U = Some q).
    { destruct L as [self n rel_name d ttl typ prf Hn Hnt Hh Ht Hy Hp Hdef
                    | self n tu kwargs Hn Hnt Htu HU].
      - destruct (good_make_nav E self rel_name (JDict d) t W) as (_ & X & _).
        { exists n. auto. }
        rewrite Hrun in X. exact (ext_id_map _ _ X _ _ Hq).
      - destruct (good_expand E self false kwargs t W I) as (_ & X & _).
        rewrite Hrun in X. exact (ext_id_map _ _ X _ _ Hq). }
    exists q, t1. split; [assumption|]. split; [assumption|].
    split; [intros q' Hq'; congruence|]. split; [discriminate|].
    eapply Hlater; eassumption.
  - destruct (looks_up_miss E U t m W L Hq) as (cp & Hrun & Hu & Hct).
    assert (Hreg : _id_map (add_nav cp t) !! Some U = Some (length (navs t))).
    { unfold add_nav. simpl. rewrite Hct, Hu. apply lookup_insert_eq. }
    exists (length (navs t)), (add_nav cp t).
    split; [assumption|]. split; [assumption|].
    split; [discriminate|]. split.
    + intros _. split; [apply lookup_ge_None_2; lia|].
      exists cp. split; [apply snoc_lookup_last | auto].
    + eapply Hlater; eassumption.
Qed.

(** ** The scenario trees are well formed *)

Lemma demo_root_init : __init__ "example.com/page/1" None = inr (0, demo_root).
Proof. reflexivity. Qed.

Lemma wf_demo_root : wf demo_root.
Proof. exact (proj1 (wf_init _ _ _ _ demo_root_init)). Qed.

Lemma wf_demo_fetched : wf demo_fetched.
Proof. exact (proj1 (good__GET demo_env 0 demo_root wf_demo_root I)). Qed.

Lemma wf_demo_expanded : wf demo_expanded.
Proof.
  exact (proj1 (good_expand demo_env 2 false {[ "id" := AInt 1 ]} demo_fetched
                  wf_demo_fetched I)).
Qed.

Lemma identity_map_lookup_witness :
  exists p t1,
    make_nav demo_env 0 "more" (href_link "/page/2") demo_fetched = Ok p t1
    /\ _id_map t1 !! Some "/page/2" = Some p
    /\ (forall q, _id_map demo_fetched !! Some "/page/2" = Some q -> p = q)
    /\ (_id_map demo_fetched !! Some "/page/2" = None ->
        navs demo_fetched !! p = None
        /\ exists cp, navs t1 !! p = Some cp /\ uri cp = Some "/page/2"
                      /\ templated cp = false)
    /\ (forall t2 m2, p = 1 -> rtc (step demo_env (fun p => p = 1)) t1 t2 ->
        looks_up demo_env "/page/2" t2 m2 -> exists t3, m2 t2 = Ok p t3).
Proof.
  apply (identity_map_lookup demo_env (fun p => p = 1) "/page/2" demo_fetched).
  - exact wf_demo_fetched.
  - unfold href_link. eapply look_link.
    + vm_compute. reflexivity.
    + reflexivity.
    + reflexivity.
    + reflexivity.
    + reflexivity.
    + reflexivity.
    + reflexivity.
Defined.

(** ** Links to a resource the tree already has *)

(** C10: when [make_nav] meets a link to a concrete resource whose href
    the identity map holds, it returns the navigator of the map and leaves
    the tree, and so every attribute of that navigator, as it was: the
    relation, title, type and profile of the link are dropped.  The dict
    comprehension of [_GET] stores that navigator under the relation. *)
Theorem existing_child_unchanged E self rel_name d href ttl typ prf t p :
  wf t -> link_ok d href ttl typ prf ->
  default false (link_get_templated d) = false ->
  _id_map t !! Some href = Some p ->
  exists n, navs t !! p = Some n
    /\ make_nav E self rel_name (JDict d) t = Ok p t
    /\ (rel_name <> "self" ->
        forall acc, make_navs E self [(rel_name, JDict d)] acc t
                    = Ok (<[rel_name := p]> acc) t).
Proof.
  intros W Hok Hdef Hmap.
  destruct (wf_id_map _ W _ _ Hmap) as (n & Hn & _).
  assert (Hrun := make_nav_hit E self rel_name d href ttl typ prf t p W Hok Hdef Hmap).
  exists n. split; [assumption|]. split; [assumption|].
  intros Hne acc. simpl.
  destruct (String.eqb rel_name "self") eqn:Heq.
  - apply String.eqb_eq in Heq. contradiction.
  - erewrite bind_Ok; [reflexivity | exact Hrun].
Qed.

Lemma existing_child_unchanged_witness :
  exists n, navs demo_fetched !! 1 = Some n
    /\ make_nav demo_env 0 "more"
         (JDict [("href", JAtom (AStr "/page/2")); ("title", JAtom (AStr "Second"))])
         demo_fetched = Ok 1 demo_fetched
    /\ make_navs demo_env 0
         [("more", JDict [("href", JAtom (AStr "/page/2"));
                          ("title", JAtom (AStr "Second"))])]
         ∅ demo_fetched
       = Ok {[ "more" := 1 ]} demo_fetched.
Proof.
  destruct (existing_child_unchanged demo_env 0 "more"
              [("href", JAtom (AStr "/page/2")); ("title", JAtom (AStr "Second"))]
              "/page/2" (Some "Second") None None demo_fetched 1)
    as (n & Hn & Hrun & Hall).
  - exact wf_demo_fetched.
  - repeat split.
  - reflexivity.
  - vm_compute. reflexivity.
  - exists n. split; [exact Hn|]. split; [exact Hrun|].
    apply Hall. discriminate.
Defined.

(** ** Fetching a templated navigator *)

(** C5: [_GET] on a templated navigator raises the ambiguous-navigation
    error and leaves the tree as it was: no request is sent, and state,
    links and response of the navigator are untouched; so does every
    accessor that fetches first. *)
Theorem fetch_templated_fails E self t n :
  navs t !! self = Some n -> templated n = true ->
  _GET E self t = Raise AmbiguousNavigationError t
  /\ (response n = None ->
      links E self t = Raise AmbiguousNavigationError t
      /\ __call__ E self t = Raise AmbiguousNavigationError t).
Proof.
  intros Hn Ht.
  assert (Hget : _GET E self t = Raise AmbiguousNavigationError t).
  { unfold _GET. rewrite (bind_Ok _ _ _ _ _ (get_nav_Ok _ _ _ Hn)). now rewrite Ht. }
  split; [assumption|]. intros Hr. split.
  - unfold links, autofetch. rewrite (bind_Ok _ _ _ _ _ (get_nav_Ok _ _ _ Hn)).
    rewrite Hr. now rewrite (bind_Raise _ _ _ _ _ Hget).
  - unfold __call__, autofetch. rewrite (bind_Ok _ _ _ _ _ (get_nav_Ok _ _ _ Hn)).
    rewrite Hr. now rewrite (bind_Raise _ _ _ _ _ Hget).
Qed.

Lemma fetch_templated_fails_witness :
  _GET demo_env 2 demo_fetched = Raise AmbiguousNavigationError demo_fetched
  /\ links demo_env 2 demo_fetched = Raise AmbiguousNavigationError demo_fetched
  /\ __call__ demo_env 2 demo_fetched = Raise AmbiguousNavigationError demo_fetched.
Proof.
  edestruct (fetch_templated_fails demo_env 2 demo_fetched) as [H1 H2].
  - vm_compute. reflexivity.
  - reflexivity.
  - split; [exact H1 | apply H2; reflexivity].
Defined.

(** ** Malformed addresses *)

Lemma parse_flags args :
  forall rels qargs slug ellipsis,
    match rest_navigator_utils.parse args rels qargs slug ellipsis with
    | inr (_, _, slug', ellipsis') =>
        slug' = slug || existsb is_binding args
        /\ ellipsis' = ellipsis || existsb is_ellipsis args
    | inl e => (exists msg, e = TypeError msg) /\ forallb recognized args = false
    end.
Proof.
  induction args as [|arg rest IH]; intros rels qargs slug ellipsis.
  - simpl. now rewrite !orb_false_r.
  - destruct arg as [s | z | start stop | | type_name].
    + simpl. apply IH.
    + simpl. eauto.
    + destruct start as [ | b | z | k].
      * destruct stop as [ | b | z | k]; simpl; eauto.
        specialize (IH rels qargs true ellipsis).
        destruct (rest_navigator_utils.parse rest rels qargs true ellipsis)
          as [e | [[[? ?] s'] e']].
        -- exact IH.
        -- destruct IH as [-> ->]. now rewrite orb_true_r.
      * simpl. eauto.
      * simpl. eauto.
      * simpl. specialize (IH rels (<[k := stop]> qargs) true ellipsis).
        destruct (rest_navigator_utils.parse rest rels (<[k := stop]> qargs) true ellipsis)
          as [e | [[[? ?] s'] e']].
        -- exact IH.
        -- destruct IH as [-> ->]. now rewrite orb_true_r.
    + simpl. specialize (IH rels qargs slug true).
      destruct (rest_navigator_utils.parse rest rels qargs slug true)
        as [e | [[[? ?] s'] e']].
      * exact IH.
      * destruct IH as [-> ->]. now rewrite orb_true_r.
    + simpl. eauto.
Qed.

(** C6: an address that combines a template-binding element with the
    continuation marker makes [__getitem__] fail before anything else
    happens: the tree, and with it the list of the requests sent, is as
    before.  The error is the syntax error of [__getitem__] when every
    element of the address is a relation name, a binding or the marker,
    and the type error of the parser otherwise. *)
Theorem binding_with_marker_rejected E self args t :
  existsb is_binding args = true -> existsb is_ellipsis args = true ->
  (exists e, __getitem__ E self args t = Raise e t /\ malformed_address e)
  /\ (forallb recognized args = true ->
      __getitem__ E self args t
      = Raise (SyntaxError "':' and '...' syntax cannot be combined!") t).
Proof.
  intros Hb He. unfold __getitem__, rest_navigator_utils.normalize_getitem_args.
  assert (H := parse_flags args [] ∅ false false).
  destruct (rest_navigator_utils.parse args [] ∅ false false)
    as [e | [[[rels qargs] slug] ellipsis]].
  - destruct H as [[msg ->] Hrec]. split.
    + eexists. split; [reflexivity | exact I].
    + intros Hall. congruence.
  - destruct H as [-> ->]. rewrite Hb, He. simpl. split.
    + eexists. split; [reflexivity | exact I].
    + reflexivity.
Qed.

Lemma binding_with_marker_rejected_witness :
  (exists e, __getitem__ demo_env 0 [BStr "orders"; BSlice (AStr "id") (AInt 1); BEllipsis]
               demo_root = Raise e demo_root /\ malformed_address e)
  /\ __getitem__ demo_env 0 [BStr "orders"; BSlice (AStr "id") (AInt 1); BEllipsis]
       demo_root
     = Raise (SyntaxError "':' and '...' syntax cannot be combined!") demo_root
  /\ requests demo_root = [].
Proof.
  destruct (binding_with_marker_rejected demo_env 0
              [BStr "orders"; BSlice (AStr "id") (AInt 1); BEllipsis] demo_root)
    as [H1 H2].
  - reflexivity.
  - reflexivity.
  - split; [exact H1|]. split; [apply H2; reflexivity | reflexivity].
Defined.

(** The parser of restnavigator/utils.py has no case for the continuation
    marker: it raises its type error on every address that holds one. *)
Lemma flat_parser_rejects_marker args :
  existsb is_ellipsis args = true ->
  exists msg, utils.normalize_getitem_args args = inl (TypeError msg).
Proof.
  induction args as [|arg rest IH]; intros H; [discriminate|].
  destruct arg as [s | z | start stop | | type_name]; simpl in *;
    try (eexists; reflexivity);
    destruct (IH H) as [msg ->]; eexists; reflexivity.
Qed.

(** ** Template expansion *)

Lemma merged_kwargs_lookup (bound : option (gmap string atom))
  (kwargs : gmap string atom) (k : string) :
  merged_kwargs bound kwargs !! k
  = match bound ≫= (fun ta => ta !! k) with
    | Some v => Some v
    | None => zero_to_str <$> kwargs !! k
    end.
Proof.
  unfold merged_kwargs. destruct bound as [ta|]; simpl.
  - rewrite lookup_union, lookup_fmap.
    destruct (ta !! k); [now rewrite union_Some_l | now rewrite (left_id_L None _)].
  - now rewrite lookup_fmap.
Qed.

Lemma zero_to_str_other v : eq_zero v = false -> zero_to_str v = v.
Proof. unfold zero_to_str. now intros ->. Qed.

Lemma zero_to_str_zero v : eq_zero v = true -> zero_to_str v = AStr "0".
Proof. unfold zero_to_str. now intros ->. Qed.

(** What [expand] returns on a templated navigator: a navigator whose uri
    is the expansion of the template with the merged arguments; in the
    keep-templated mode the merged arguments are recorded on it. *)
Lemma expand_result E self keep kwargs t n tu :
  wf t -> navs t !! self = Some n -> templated n = true ->
  template_uri n = Some tu ->
  exists p t' n',
    expand E self keep kwargs t = Ok p t' /\ navs t' !! p = Some n'
    /\ uri n' = Some (uritemplate_expand E tu (merged_kwargs (template_args n) kwargs))
    /\ (keep = true ->
        template_args n' = Some (merged_kwargs (template_args n) kwargs)).
Proof.
  intros W Hn Ht Htu.
  set (kw := merged_kwargs (template_args n) kwargs).
  set (u := uritemplate_expand E tu kw).
  destruct (_id_map t !! Some u) as [p|] eqn:Hmap.
  - destruct (wf_id_map _ W _ _ Hmap) as (m & Hm & Hmt & Hmu).
    assert (Hlt := lookup_lt_Some _ _ _ Hm).
    exists p. eexists. exists (expanded_existing keep kw m).
    split; [eapply expand_hit; eassumption|].
    split; [simpl; now apply list_lookup_insert_eq|].
    unfold expanded_existing. destruct keep; simpl; split; auto; discriminate.
  - exists (length (navs t)). eexists. exists (expanded_copy keep kw u n).
    split; [eapply expand_miss; eassumption|].
    split; [apply snoc_lookup_last|].
    unfold expanded_copy. destruct keep; simpl; split; auto; discriminate.
Qed.

(** C3: [expand] merges the arguments bound on the navigator by an earlier
    expansion with the ones it is given: a parameter bound before keeps
    its value, whatever the caller supplies for it; a parameter not bound
    before takes the supplied value (after the zero loop: a value equal to
    zero as the string "0", any other value as it is).  The merged
    arguments are the ones the template is expanded with, and the ones
    recorded in the keep-templated mode. *)
Theorem expand_bound_args_win E self keep kwargs t n tu :
  wf t -> navs t !! self = Some n -> templated n = true ->
  template_uri n = Some tu ->
  exists kw p t' n',
    expand E self keep kwargs t = Ok p t' /\ navs t' !! p = Some n'
    /\ uri n' = Some (uritemplate_expand E tu kw)
    /\ (keep = true -> template_args n' = Some kw)
    /\ (forall ta k prior, template_args n = Some ta -> ta !! k = Some prior ->
        kw !! k = Some prior)
    /\ (forall k, template_args n ≫= (fun ta => ta !! k) = None ->
        kw !! k = zero_to_str <$> kwargs !! k)
    /\ (forall k v, template_args n ≫= (fun ta => ta !! k) = None ->
        kwargs !! k = Some v -> eq_zero v = false -> kw !! k = Some v).
Proof.
  intros W Hn Ht Htu.
  destruct (expand_result E self keep kwargs t n tu W Hn Ht Htu)
    as (p & t' & n' & Hrun & Hp & Hu & Hk).
  exists (merged_kwargs (template_args n) kwargs), p, t', n'.
  repeat (split; [assumption|]).
  split; [|split].
  - intros ta k prior Hta Hprior. rewrite merged_kwargs_lookup, Hta. simpl.
    now rewrite Hprior.
  - intros k Hnone. now rewrite merged_kwargs_lookup, Hnone.
  - intros k v Hnone Hv Hz. rewrite merged_kwargs_lookup, Hnone, Hv. simpl.
    now rewrite zero_to_str_other.
Qed.

Lemma wf_demo_bound : wf demo_bound.
Proof.
  exact (proj1 (good_expand demo_env 3 true {[ "q" := AStr "x" ]} demo_fetched
                  wf_demo_fetched I)).
Qed.

Lemma expand_bound_args_win_witness :
  exists kw p t' n',
    expand demo_env 4 false {[ "q" := AStr "y"; "page" := AInt 2 ]} demo_bound = Ok p t'
    /\ navs t' !! p = Some n'
    /\ uri n' = Some (uritemplate.expand "/search{?q,page}" kw)
    /\ kw !! "q" = Some (AStr "x")
    /\ kw !! "page" = Some (AInt 2).
Proof.
  edestruct (expand_bound_args_win demo_env 4 false
               {[ "q" := AStr "y"; "page" := AInt 2 ]} demo_bound)
    as (kw & p & t' & n' & Hrun & Hp & Hu & _ & Hbound & _ & Hfree).
  - exact wf_demo_bound.
  - vm_compute. reflexivity.
  - reflexivity.
  - reflexivity.
  - exists kw, p, t', n'. repeat (split; [eassumption|]). split.
    + eapply Hbound; [vm_compute; reflexivity | vm_compute; reflexivity].
    + apply Hfree; [vm_compute; reflexivity | vm_compute; reflexivity | reflexivity].
Defined.

Lemma string_app_nil_r (s : string) : s +:+ "" = s.
Proof.
  induction s as [|c s IH]; [reflexivity|].
  change (String c (s +:+ "") = String c s). now rewrite IH.
Qed.

(** The expansion of the order template, for any argument dict. *)
Lemma expand_orders_template (kw : gmap string atom) :
  uritemplate.expand "/orders{?id}" kw
  = "/orders" +:+ match kw !! "id" ≫= uritemplate.tostring "?" "id" with
                  | Some s => "?" +:+ s
                  | None => ""
                  end.
Proof.
  change (uritemplate.expand "/orders{?id}" kw)
    with ("/orders" +:+ (uritemplate.expand_expression kw "?id" +:+ "")).
  unfold uritemplate.expand_expression.
  change (uritemplate.split_operator "?id") with ("?", "id").
  cbv beta iota.
  change (str_split "," "id") with ["id"].
  cbn [omap list_omap]. destruct (kw !! "id") as [v|]; [|reflexivity].
  simpl mbind. destruct (uritemplate.tostring "?" "id" v) as [s|]; [|reflexivity].
  change (uritemplate.start_of "?" +:+ str_join (uritemplate.joiner_of "?") [s])
    with ("?" +:+ s).
  now rewrite string_app_nil_r.
Qed.

(** C4: with the template [/orders{?id}] and no [id] bound before,
    expanding with [id] equal to the number 0 gives a navigator for
    [/orders?id=0], not for [/orders?id=], which is what the template
    library makes of the number itself; in general every supplied value
    that is equal to zero reaches the template library as the string "0",
    unless the parameter was bound before. *)
Theorem expand_zero_argument (server : list string -> string -> exn + Response)
  self keep kwargs t n :
  let E := mkEnv server uritemplate.expand uritemplate.variables in
  wf t -> navs t !! self = Some n -> templated n = true ->
  template_uri n = Some "/orders{?id}" ->
  template_args n ≫= (fun ta => ta !! "id") = None ->
  kwargs !! "id" = Some (AInt 0) ->
  (exists p t' n',
      expand E self keep kwargs t = Ok p t' /\ navs t' !! p = Some n'
      /\ uri n' = Some "/orders?id=0")
  /\ uritemplate.expand "/orders{?id}" kwargs = "/orders?id="
  /\ (forall bound args k v,
        bound ≫= (fun ta => ta !! k) = None -> args !! k = Some v ->
        eq_zero v = true -> merged_kwargs bound args !! k = Some (AStr "0")).
Proof.
  intros E W Hn Ht Htu Hfree Hid. split; [|split].
  - destruct (expand_result E self keep kwargs t n _ W Hn Ht Htu)
      as (p & t' & n' & Hrun & Hp & Hu & _).
    exists p, t', n'. split; [assumption|]. split; [assumption|].
    rewrite Hu. simpl uritemplate_expand. rewrite expand_orders_template.
    rewrite merged_kwargs_lookup, Hfree, Hid. reflexivity.
  - rewrite expand_orders_template, Hid. reflexivity.
  - intros bound args k v Hb Hv Hz.
    rewrite merged_kwargs_lookup, Hb, Hv. simpl. now rewrite zero_to_str_zero.
Qed.

Lemma expand_zero_argument_witness :
  (exists p t' n',
      expand demo_env 2 false {[ "id" := AInt 0 ]} demo_fetched = Ok p t'
      /\ navs t' !! p = Some n' /\ uri n' = Some "/orders?id=0")
  /\ uritemplate.expand "/orders{?id}" {[ "id" := AInt 0 ]} = "/orders?id="
  /\ merged_kwargs None {[ "n" := ABool false ]} !! "n" = Some (AStr "0").
Proof.
  edestruct (expand_zero_argument demo_server 2 false {[ "id" := AInt 0 ]} demo_fetched)
    as (H1 & H2 & H3).
  - exact wf_demo_fetched.
  - vm_compute. reflexivity.
  - reflexivity.
  - reflexivity.
  - reflexivity.
  - reflexivity.
  - split; [exact H1|]. split; [exact H2|].
    apply (H3 None {[ "n" := ABool false ]} "n" (ABool false)); reflexivity.
Defined.

(** ** Expansion in the keep-templated mode *)

(** When the identity map has no navigator for the expanded uri, the
    keep-templated expansion builds a new navigator that is templated,
    carries the merged arguments and is not entered into the map. *)
Lemma keep_templated_fresh E self kwargs t n tu :
  navs t !! self = Some n -> templated n = true -> template_uri n = Some tu ->
  let kw := merged_kwargs (template_args n) kwargs in
  _id_map t !! Some (uritemplate_expand E tu kw) = None ->
  exists t' n',
    expand E self true kwargs t = Ok (length (navs t)) t'
    /\ navs t !! length (navs t) = None
    /\ navs t' !! length (navs t) = Some n'
    /\ templated n' = true /\ template_uri n' = Some tu
    /\ template_args n' = Some kw
    /\ _id_map t' = _id_map t.
Proof.
  intros Hn Ht Htu kw Hmiss.
  eexists. exists (expanded_copy true kw (uritemplate_expand E tu kw) n).
  split; [eapply expand_miss; eassumption|].
  split; [apply lookup_ge_None_2; lia|].
  split; [apply snoc_lookup_last|].
  repeat split. simpl. exact Htu.
Qed.

(** C2 fails on the code when the identity map holds a navigator for the
    expanded uri: the keep-templated expansion of the order lookup with
    [id=1], in the tree where [/orders?id=1] is registered, returns that
    registered navigator. It is not templated, so it cannot be expanded
    further, and the arguments are recorded on it all the same. *)
Lemma keep_templated_returns_registered :
  exists t' n',
    expand demo_env 2 true {[ "id" := AInt 1 ]} demo_expanded = Ok 4 t'
    /\ _id_map demo_expanded !! Some "/orders?id=1" = Some 4
    /\ navs t' !! 4 = Some n'
    /\ templated n' = false
    /\ template_args n' = Some {[ "id" := AInt 1 ]}
    /\ _id_map t' !! Some "/orders?id=1" = Some 4
    /\ expand demo_env 4 false ∅ t'
       = Raise (TypeError "This Navigator isn't templated! You can't expand it.") t'.
Proof.
  eexists. eexists. split; [vm_compute; reflexivity|].
  repeat split; vm_compute; reflexivity.
Qed.

(** ** The value of a navigator *)

(** Replacing an object does not show in the values that cannot reach it. *)
Lemma view_insert_above h c o fuel :
  closed h ->
  forall v, value_below c v -> view fuel (<[c := o]> h) v = view fuel h v.
Proof.
  intros Hcl. induction fuel as [|fuel IH]; intros v Hv; [reflexivity|].
  destruct v as [a | r]; [reflexivity|]. simpl in Hv. simpl.
  rewrite list_lookup_insert_ne by lia.
  destruct (h !! r) as [[elems | items]|] eqn:Hr; [| |reflexivity].
  - f_equal. apply Forall_mapM_ext.
    assert (Hb := Hcl _ _ Hr). simpl in Hb.
    eapply Forall_impl; [exact Hb|]. intros x Hx. apply IH.
    eapply value_below_mono; [|exact Hx]. lia.
  - f_equal. apply Forall_mapM_ext.
    assert (Hb := Hcl _ _ Hr). simpl in Hb.
    eapply Forall_impl; [exact Hb|]. intros x Hx. simpl. f_equal. apply IH.
    eapply value_below_mono; [|exact Hx]. lia.
Qed.

(** How a call of the navigator ends when it returns. *)
Lemma call_inv E self t c t' :
  wf t -> __call__ E self t = Ok c t' ->
  exists t1 n' st items,
    wf t1 /\ ext t t1 /\ navs t1 !! self = Some n' /\ state n' = Some st
    /\ objs t1 !! st = Some (ODict items)
    /\ c = length (objs t1)
    /\ t' = with_objs (fun l => l ++ [ODict items]) t1.
Proof.
  intros W. unfold __call__, autofetch.
  assert (Hbody : forall t1, wf t1 -> ext t t1 -> state_copy self t1 = Ok c t' ->
            exists t1 n' st items,
              wf t1 /\ ext t t1 /\ navs t1 !! self = Some n' /\ state n' = Some st
              /\ objs t1 !! st = Some (ODict items)
              /\ c = length (objs t1)
              /\ t' = with_objs (fun l => l ++ [ODict items]) t1).
  { intros t1 W1 X1. unfold state_copy, bind, get_nav, get_tree, raise.
    destruct (navs t1 !! self) as [n'|] eqn:Hn'; [|intros H; discriminate H].
    destruct (state n') as [st|] eqn:Hst; [|intros H; discriminate H].
    destruct (objs t1 !! st) as [[elems | items]|] eqn:Ho;
      try (intros H; discriminate H).
    unfold alloc_obj. intros H. injection H as <- <-.
    exists t1, n', st, items. auto 10. }
  unfold bind at 1. unfold get_nav.
  destruct (navs t !! self) as [n|] eqn:Hn; [|intros H; discriminate H].
  destruct (response n).
  - apply Hbody; [assumption | apply ext_refl].
  - unfold bind at 1.
    destruct (good__GET E self t W I) as (W1 & X1 & _).
    destruct (_GET E self t) as [[] t1 | e t1]; [|intros H; discriminate H].
    apply Hbody; assumption.
Qed.

(** C7 (as [self.state.copy()] has it): the call returns a new dict that
    holds the items of the state dict.  It is a new object, different from
    the state dict, which nothing in the tree refers to: whatever is done
    to the returned dict itself (keys bound, rebound or removed) leaves
    every other object, and so the state of the navigator at any depth, as
    it was.  The values of the two dicts are the same objects. *)
Theorem call_returns_new_dict E self t c t' :
  wf t -> __call__ E self t = Ok c t' ->
  exists n' st items,
    navs t' !! self = Some n' /\ state n' = Some st
    /\ objs t' !! st = Some (ODict items)
    /\ objs t' !! c = Some (ODict items)
    /\ c <> st /\ objs t !! c = None
    /\ (forall o l, l <> c -> (<[c := o]> (objs t')) !! l = objs t' !! l)
    /\ (forall o fuel,
          state_view fuel self (with_objs (fun h => <[c := o]> h) t')
          = state_view fuel self t')
    /\ (forall k v, exists t'',
          dict_setitem c k v t' = Ok tt t'' /\ navs t'' = navs t'
          /\ forall fuel, state_view fuel self t'' = state_view fuel self t').
Proof.
  intros W Hrun.
  destruct (call_inv E self t c t' W Hrun)
    as (t1 & n' & st & items & W1 & X1 & Hn' & Hst & Ho & -> & ->).
  assert (Hlt := lookup_lt_Some _ _ _ Ho).
  assert (Hcl : closed (objs t1 ++ [ODict items])).
  { apply closed_snoc; [exact (wf_objs _ W1)|].
    apply (refs_below_mono st); [lia | exact (wf_objs _ W1 _ _ Ho)]. }
  assert (Hview : forall o fuel,
            state_view fuel self
              (with_objs (fun h => <[length (objs t1) := o]> h)
                 (with_objs (fun l => l ++ [ODict items]) t1))
            = state_view fuel self (with_objs (fun l => l ++ [ODict items]) t1)).
  { intros o fuel. unfold state_view. simpl. rewrite Hn'. simpl. rewrite Hst. simpl.
    apply view_insert_above; [assumption | simpl; lia]. }
  exists n', st, items. simpl.
  split; [assumption|]. split; [assumption|].
  split; [now apply lookup_app_l_Some|].
  split; [apply snoc_lookup_last|].
  split; [lia|].
  split.
  { apply lookup_ge_None_2. apply prefix_length. exact (ext_objs _ _ X1). }
  split; [intros o l Hl; apply list_lookup_insert_ne; congruence|].
  split; [exact Hview|].
  intros k v. eexists. split; [|split].
  - unfold dict_setitem, bind, get_tree. simpl.
    rewrite snoc_lookup_last. reflexivity.
  - reflexivity.
  - intros fuel. apply Hview.
Qed.

Lemma call_returns_new_dict_witness :
  exists c t' n' st items,
    __call__ demo_env 0 demo_fetched = Ok c t'
    /\ navs t' !! 0 = Some n' /\ state n' = Some st
    /\ objs t' !! st = Some (ODict items)
    /\ objs t' !! c = Some (ODict items)
    /\ c <> st
    /\ forall fuel,
         state_view fuel 0 (with_objs (fun h => <[c := ODict []]> h) t')
         = state_view fuel 0 t'.
Proof.
  assert (Hrun : __call__ demo_env 0 demo_fetched
                 = Ok 2 (tree_of (__call__ demo_env 0 demo_fetched)))
    by (vm_compute; reflexivity).
  destruct (call_returns_new_dict demo_env 0 demo_fetched 2 _ wf_demo_fetched Hrun)
    as (n' & st & items & Hn & Hs & Hst & Hc & Hne & _ & _ & Hview & _).
  exists 2, (tree_of (__call__ demo_env 0 demo_fetched)), n', st, items.
  split; [exact Hrun|]. split; [exact Hn|]. split; [exact Hs|].
  split; [exact Hst|]. split; [exact Hc|]. split; [exact Hne|].
  intros fuel. apply Hview.
Defined.

(** C7 as the spec words it fails on nested values: the returned dict and
    the state dict hold the same list under [tags], so an [append] to the
    list reached through the returned dict shows in the state of the
    navigator. *)
Lemma nested_mutation_reaches_state :
  exists c t1 l t2,
    __call__ demo_env 0 demo_fetched = Ok c t1
    /\ dict_lookup c "tags" t1 = Ok (VRef l) t1
    /\ list_append l (VAtom (AStr "b")) t1 = Ok tt t2
    /\ state_view 3 0 t1
       = Some (JDict [("n", JAtom (AInt 1)); ("tags", JList [JAtom (AStr "a")])])
    /\ state_view 3 0 t2
       = Some (JDict [("n", JAtom (AInt 1));
                      ("tags", JList [JAtom (AStr "a"); JAtom (AStr "b")])])
    /\ state_view 3 0 t2 <> state_view 3 0 t1.
Proof.
  eexists. eexists. eexists. eexists.
  split; [vm_compute; reflexivity|].
  split; [vm_compute; reflexivity|].
  split; [vm_compute; reflexivity|].
  split; [vm_compute; reflexivity|].
  split; [vm_compute; reflexivity|].
  vm_compute. discriminate.
Qed.

(** ** Iteration *)

Lemma bind_ret_r {A} (m : M A) t : (x <- m ;; ret x) t = m t.
Proof. unfold bind. destruct (m t); reflexivity. Qed.

(** Subselection by one relation name is the first branch of
    [dereference]. *)
Lemma getitem_one_rel E self rel_name t :
  __getitem__ E self [BStr rel_name] t = dereference_one E self rel_name t.
Proof.
  unfold __getitem__. simpl.
  change (negb (bool_decide ((∅ : gmap string atom) = ∅)) || false) with false.
  cbv iota. apply bind_ret_r.
Qed.

(** Once a navigator has a response, the fetch-first accessors do not
    fetch. *)
Lemma autofetch_fetched {A} E p (fn : M A) t n :
  navs t !! p = Some n -> is_Some (response n) -> autofetch E p fn t = fn t.
Proof.
  intros Hn [r Hr]. unfold autofetch.
  rewrite (bind_Ok _ _ _ _ _ (get_nav_Ok _ _ _ Hn)). now rewrite Hr.
Qed.

(** How the property [links] ends when it returns: the navigator has a
    response and the links returned, and anything that fetches first
    continues in the tree [links] left. *)
Lemma links_inv E p t ls t1 :
  wf t -> links E p t = Ok ls t1 ->
  wf t1
  /\ (exists n1, navs t1 !! p = Some n1 /\ is_Some (response n1) /\ _links n1 = ls)
  /\ forall A (fn : M A), autofetch E p fn t = fn t1.
Proof.
  intros W. unfold links, autofetch at 1. unfold bind at 1. unfold get_nav at 1.
  destruct (navs t !! p) as [n|] eqn:Hn; [|intros H; discriminate H].
  destruct (response n) as [r|] eqn:Hr.
  - unfold bind, get_nav. rewrite Hn. intros H. injection H as <- <-.
    split; [assumption|]. split; [exists n; eauto|].
    intros A fn. apply (autofetch_fetched E p fn t n); eauto.
  - unfold bind at 1.
    destruct (good__GET E p t W I) as (W1 & X1 & HQ).
    destruct (_GET E p t) as [[] t'|e t'] eqn:HG; [|intros H; discriminate H].
    simpl in W1, HQ. destruct HQ as (n1 & Hn1 & Hr1).
    unfold bind, get_nav. rewrite Hn1. intros H. injection H as <- <-.
    split; [assumption|]. split; [exists n1; auto|].
    intros A fn. unfold autofetch.
    rewrite (bind_Ok _ _ _ _ _ (get_nav_Ok _ _ _ Hn)). rewrite Hr.
    now rewrite (bind_Ok _ _ _ _ _ HG).
Qed.

Lemma links_fetched E p t n :
  navs t !! p = Some n -> is_Some (response n) -> links E p t = Ok (_links n) t.
Proof.
  intros Hn Hr. unfold links. rewrite (autofetch_fetched E p _ t n Hn Hr).
  now rewrite (bind_Ok _ _ _ _ _ (get_nav_Ok _ _ _ Hn)).
Qed.

(** C8 (as [__iter__] has it): when the links of the first page, fetched
    on demand, hold a [next] link to a concrete second page, and the links
    of the second page, fetched on demand, hold no [next], the iteration
    from the first page yields the navigator of the second page and
    nothing else, then ends: the first page itself is not yielded. *)
Theorem iter_two_pages E t p1 ls1 t1 p2 n2 ls2 t2 :
  wf t ->
  links E p1 t = Ok (Some ls1) t1 -> ls1 !! "next" = Some p2 ->
  navs t1 !! p2 = Some n2 -> templated n2 = false ->
  links E p2 t1 = Ok (Some ls2) t2 -> ls2 !! "next" = None ->
  forall fuel, __iter__ E (S (S fuel)) p1 t = Ok ([p2], true) t2.
Proof.
  intros W L1 Hnext Hn2 Ht2 L2 Hend fuel.
  destruct (links_inv E p1 t _ t1 W L1) as (W1 & (n1 & Hn1 & Hr1 & Hl1) & Hauto1).
  destruct (links_inv E p2 t1 _ t2 W1 L2) as (W2 & (m2 & Hm2 & Hr2 & Hl2) & Hauto2).
  assert (Hfirst : next E p1 t = Ok p2 t1).
  { unfold next, try_except. rewrite getitem_one_rel. unfold dereference_one.
    rewrite Hauto1.
    rewrite (bind_Ok _ _ _ _ _ (links_fetched E p1 t1 n1 Hn1 Hr1)). rewrite Hl1, Hnext.
    rewrite (bind_Ok _ _ _ _ _ (get_nav_Ok _ _ _ Hn2)). now rewrite Ht2. }
  assert (Hsecond : next E p2 t1 = Raise StopIteration t2).
  { unfold next, try_except. rewrite getitem_one_rel. unfold dereference_one.
    rewrite Hauto2.
    rewrite (bind_Ok _ _ _ _ _ (links_fetched E p2 t2 m2 Hm2 Hr2)). rewrite Hl2, Hend.
    reflexivity. }
  simpl. rewrite Hfirst. unfold bind. rewrite Hsecond. reflexivity.
Qed.

Lemma iter_two_pages_witness :
  exists t2, __iter__ demo_env 2 0 demo_root = Ok ([1], true) t2.
Proof.
  eexists.
  eapply (iter_two_pages demo_env demo_root 0 _ _ 1 _ _ _ wf_demo_root).
  - vm_compute. reflexivity.
  - vm_compute. reflexivity.
  - vm_compute. reflexivity.
  - reflexivity.
  - vm_compute. reflexivity.
  - vm_compute. reflexivity.
Defined.

(** C8 as the spec words it fails: on the server whose first page links
    to [/page/2] by [next] and whose second page has no [next], the
    iteration from the first page yields one navigator, the one of
    [/page/2], and not two. *)
Lemma iter_yields_one_navigator :
  assoc "next" (match assoc "_links" page1_doc with Some (JDict d) => d | _ => [] end)
  = Some (href_link "/page/2")
  /\ assoc "next" (match assoc "_links" page2_doc with Some (JDict d) => d | _ => [] end)
     = None
  /\ exists yielded t' n,
       __iter__ demo_env 5 0 demo_root = Ok (yielded, true) t'
       /\ yielded = [1] /\ length yielded <> 2
       /\ navs t' !! 1 = Some n /\ uri n = Some "/page/2".
Proof.
  split; [reflexivity|]. split; [reflexivity|].
  eexists. eexists. eexists.
  split; [vm_compute; reflexivity|].
  split; [reflexivity|]. split; [simpl; lia|].
  split; [vm_compute; reflexivity | reflexivity].
Qed.

(** ** The link collection *)

Section LinkListFacts.
Import linklist.
Context {A : Type}.

(** What [_meta] holds after the items were appended one by one. *)
Definition meta_of (self : LinkList A) (items : list (A * gmap string atom)) : Prop :=
  elems self = items.*1
  /\ forall prop,
      match _meta self !! prop with
      | None => forall item, item ∈ items -> item.2 !! prop = None
      | Some inner =>
          (exists item, item ∈ items /\ is_Some (item.2 !! prop))
          /\ forall sval,
              match inner !! sval with
              | None => matching items prop sval = []
              | Some objs => objs = matching items prop sval /\ objs <> []
              end
      end.

Lemma matching_app (items items' : list (A * gmap string atom)) prop sval :
  matching (items ++ items') prop sval
  = matching items prop sval ++ matching items' prop sval.
Proof. unfold matching. apply omap_app. Qed.

Lemma matching_singleton (obj : A) (properties : gmap string atom) prop sval :
  matching [(obj, properties)] prop sval
  = if bool_decide (serialize <$> properties !! prop = Some sval) then [obj] else [].
Proof.
  unfold matching. simpl.
  destruct (bool_decide (serialize <$> properties !! prop = Some sval)); reflexivity.
Qed.

Lemma matching_given (obj : A) (properties : gmap string atom) prop v sval :
  properties !! prop = Some v ->
  matching [(obj, properties)] prop sval
  = if decide (serialize v = sval) then [obj] else [].
Proof.
  intros Hv. rewrite matching_singleton, Hv. simpl.
  destruct (decide (serialize v = sval)) as [->|Hne].
  - now rewrite bool_decide_eq_true_2.
  - rewrite bool_decide_eq_false_2; [reflexivity | congruence].
Qed.

Lemma matching_not_given (obj : A) (properties : gmap string atom) prop sval :
  properties !! prop = None -> matching [(obj, properties)] prop sval = [].
Proof.
  intros Hv. rewrite matching_singleton, Hv. reflexivity.
Qed.

Lemma matching_unknown (items : list (A * gmap string atom)) prop sval :
  (forall item, item ∈ items -> item.2 !! prop = None) ->
  matching items prop sval = [].
Proof.
  induction items as [|[obj properties] items IH]; intros H; [reflexivity|].
  change ((obj, properties) :: items) with ([(obj, properties)] ++ items).
  rewrite matching_app, matching_not_given, IH; [reflexivity | |].
  - intros item Hi. apply H. set_solver.
  - apply (H (obj, properties)). set_solver.
Qed.

Lemma meta_of_append self items obj properties :
  meta_of self items ->
  meta_of (append_with self obj properties) (items ++ [(obj, properties)]).
Proof.
  intros [Hel Hmeta]. split.
  - simpl. rewrite Hel, fmap_app. reflexivity.
  - intros prop. specialize (Hmeta prop). simpl. rewrite lookup_merge.
    destruct (properties !! prop) as [v|] eqn:Hv;
      destruct (_meta self !! prop) as [inner|] eqn:Hin; simpl.
    + (* the property is known and given *)
      destruct Hmeta as [_ Hin']. split.
      { exists (obj, properties). split; [set_solver | simpl; eauto]. }
      intros sval. rewrite matching_app, (matching_given _ _ _ v) by assumption.
      unfold record_under. simpl. specialize (Hin' sval).
      destruct (decide (serialize v = sval)) as [<-|Hne].
      * rewrite lookup_insert_eq.
        destruct (inner !! serialize v) as [objs|]; simpl.
        -- destruct Hin' as [-> _]. split; [reflexivity|].
           intros H. apply app_eq_nil in H. destruct H as [_ H]. discriminate H.
        -- rewrite Hin'. split; [reflexivity | discriminate].
      * rewrite lookup_insert_ne by assumption. rewrite app_nil_r. exact Hin'.
    + (* the property is new *)
      split.
      { exists (obj, properties). split; [set_solver | simpl; eauto]. }
      intros sval. rewrite matching_app, (matching_given _ _ _ v) by assumption.
      rewrite (matching_unknown items) by assumption.
      unfold record_under. simpl.
      destruct (decide (serialize v = sval)) as [<-|Hne].
      * rewrite lookup_insert_eq, lookup_empty. simpl.
        split; [reflexivity | discriminate].
      * rewrite lookup_insert_ne, lookup_empty by assumption. reflexivity.
    + (* the property is known and not given *)
      destruct Hmeta as [(item & Hi & Hs) Hin']. split.
      { exists item. split; [set_solver | assumption]. }
      intros sval. rewrite matching_app, matching_not_given by assumption.
      rewrite app_nil_r. apply Hin'.
    + (* the property is unknown and not given *)
      intros item Hi. apply elem_of_app in Hi. destruct Hi as [Hi | Hi].
      * now apply Hmeta.
      * apply list_elem_of_singleton in Hi. subst item. exact Hv.
Qed.

Lemma meta_of_init (items : list (A * gmap string atom)) :
  meta_of (__init__ items) items.
Proof.
  unfold __init__.
  induction items as [|item items IH] using rev_ind.
  - split; [reflexivity|]. intros prop. simpl. rewrite lookup_empty.
    intros item Hi. inversion Hi.
  - rewrite fold_left_app. simpl. destruct item as [obj properties].
    now apply meta_of_append.
Qed.

(** Whether some item was recorded with the property. *)
Definition records (items : list (A * gmap string atom)) (prop : string) : bool :=
  existsb (fun item => bool_decide (is_Some (item.2 !! prop))) items.

Lemma records_spec items prop :
  records items prop = true <-> exists item, item ∈ items /\ is_Some (item.2 !! prop).
Proof.
  unfold records. rewrite existsb_exists. split.
  - intros (item & Hi & Hb). exists item. split.
    + now apply list_elem_of_In.
    + eapply bool_decide_eq_true_1, Hb.
  - intros (item & Hi & Hs). exists item. split.
    + now apply list_elem_of_In.
    + now apply bool_decide_eq_true_2.
Qed.

(** [getall_by] returns the objects recorded with a value of the same
    text, in the order they were appended; they are elements of the
    list, which holds every appended object in order. *)
Theorem getall_by_matching (items : list (A * gmap string atom)) prop val :
  getall_by (__init__ items) prop val = matching items prop (serialize val)
  /\ elems (__init__ items) = items.*1
  /\ getall_by (__init__ items) prop val `sublist_of` elems (__init__ items).
Proof.
  destruct (meta_of_init items) as [Hel Hmeta].
  assert (Hall : getall_by (__init__ items) prop val
                 = matching items prop (serialize val)).
  { unfold getall_by. specialize (Hmeta prop).
    destruct (_meta (__init__ items) !! prop) as [inner|].
    - destruct Hmeta as [_ Hin]. specialize (Hin (serialize val)).
      destruct (inner !! serialize val); [apply Hin | now rewrite Hin].
    - symmetry. now apply matching_unknown. }
  split; [assumption|]. split; [assumption|].
  rewrite Hall, Hel. unfold matching. clear.
  induction items as [|item items IH]; simpl; [constructor|].
  destruct (bool_decide _); simpl.
  - now apply sublist_skip.
  - now apply sublist_cons.
Qed.

(** The lookup [self._meta[prop][val][0]] finds the first object recorded
    with that text, or misses with the [KeyError] of the dict that has no
    entry; the inner lists are never empty. *)
Lemma first_recorded_spec (items : list (A * gmap string atom)) prop sval :
  first_recorded (__init__ items) prop sval
  = match matching items prop sval with
    | obj :: _ => inr obj
    | [] => inl (KeyError (if records items prop then sval else prop))
    end.
Proof.
  destruct (meta_of_init items) as [_ Hmeta]. specialize (Hmeta prop).
  unfold first_recorded.
  destruct (_meta (__init__ items) !! prop) as [inner|].
  - destruct Hmeta as [Hrec Hin]. specialize (Hin sval).
    apply records_spec in Hrec. rewrite Hrec.
    destruct (inner !! sval) as [objs|].
    + destruct Hin as [<- Hne]. destruct objs; [contradiction | reflexivity].
    + rewrite Hin. reflexivity.
  - rewrite (matching_unknown items) by assumption.
    destruct (records items prop) eqn:Hrec; [|reflexivity].
    apply records_spec in Hrec. destruct Hrec as (item & Hi & [v Hv]).
    rewrite (Hmeta item Hi) in Hv. discriminate Hv.
Qed.

(** [get_by] returns the first object recorded with a value of the same
    text.  When there is none it returns [None], or with [raise_exc] the
    [KeyError] of the lookup that missed: of the property when no object
    was recorded with it, of the text of the value otherwise.  The
    [IndexError] it guards against is never raised. *)
Theorem get_by_first (items : list (A * gmap string atom)) prop val raise_exc :
  get_by (__init__ items) prop val raise_exc
  = match matching items prop (serialize val) with
    | obj :: _ => inr (Some obj)
    | [] =>
        if raise_exc
        then inl (KeyError (if records items prop then serialize val else prop))
        else inr None
    end.
Proof.
  unfold get_by. rewrite first_recorded_spec.
  destruct (matching items prop (serialize val)) as [|obj rest]; [|reflexivity].
  destruct raise_exc; reflexivity.
Qed.

(** [named] serializes the name twice, which changes nothing: it returns
    the first object recorded under [name] with a value of the same text
    as the one asked for, whatever the types of the two, and [None] when
    there is none. *)
Theorem named_first (items : list (A * gmap string atom)) name :
  named (__init__ items) name
  = inr (head (matching items "name" (serialize name))).
Proof.
  unfold named, get_by. rewrite first_recorded_spec.
  change (serialize (AStr (serialize name))) with (serialize name).
  destruct (matching items "name" (serialize name)); reflexivity.
Qed.
End LinkListFacts.

(** ** What a fetch does *)

(** How a tree grows while the children of a fetch are built: navigators
    are added, and nothing else changes but the identity map. *)
Definition grows (t t' : Tree) : Prop :=
  navs t `prefix_of` navs t' /\ objs t' = objs t /\ requests t' = requests t.

Lemma grows_refl t : grows t t.
Proof. repeat split; reflexivity. Qed.

Lemma grows_trans t1 t2 t3 : grows t1 t2 -> grows t2 t3 -> grows t1 t3.
Proof.
  intros (N1 & O1 & R1) (N2 & O2 & R2). repeat split; [|congruence..].
  etransitivity; eassumption.
Qed.

Lemma grows_add_nav cp t : grows t (add_nav cp t).
Proof. repeat split; simpl. now apply prefix_app_r. Qed.

Lemma make_nav_grows E self rel_name link t :
  wf t -> concrete self t -> grows t (tree_of (make_nav E self rel_name link t)).
Proof.
  intros W (n & Hn & Ht).
  destruct (make_nav_cases E self rel_name link t n W Hn Ht)
    as [[e ->] | [(p & href & -> & Hp) | (cp & -> & Hcp)]]; simpl;
    auto using grows_refl, grows_add_nav.
Qed.

(** The relation names the dict comprehension of [_GET] keeps. *)
Definition kept_rels (items : list (string * json)) : list string :=
  filter (fun r => r <> "self") items.*1.

Lemma make_navs_grows E self items :
  forall acc t, wf t -> concrete self t ->
    grows t (tree_of (make_navs E self items acc t))
    /\ match make_navs E self items acc t with
       | Ok made _ => dom made = dom acc ∪ list_to_set (kept_rels items)
       | Raise _ _ => True
       end.
Proof.
  induction items as [|[rel_name link] rest IH]; intros acc t W Hc.
  - simpl. split; [apply grows_refl|]. unfold kept_rels. simpl. set_solver.
  - simpl. destruct (String.eqb rel_name "self") eqn:Heq.
    + apply String.eqb_eq in Heq. subst rel_name.
      destruct (IH acc t W Hc) as [G D]. split; [assumption|].
      destruct (make_navs E self rest acc t); [|exact I].
      rewrite D. unfold kept_rels. simpl.
      rewrite filter_cons_False by (intros H; now apply H). reflexivity.
    + apply String.eqb_neq in Heq.
      assert (G1 := make_nav_grows E self rel_name link t W Hc).
      destruct (good_make_nav E self rel_name link t W Hc) as (W1 & X1 & _).
      unfold bind. destruct (make_nav E self rel_name link t) as [cp t1 | e t1];
        simpl in *; [|auto].
      assert (Hc1 : concrete self t1) by (eapply stable_concrete; eassumption).
      destruct (IH (<[rel_name := cp]> acc) t1 W1 Hc1) as [G D].
      split; [eapply grows_trans; eassumption|].
      destruct (make_navs E self rest (<[rel_name := cp]> acc) t1); [|exact I].
      rewrite D, dom_insert_L. unfold kept_rels. simpl.
      rewrite filter_cons_True by assumption. set_solver.
Qed.

Lemma http_get_run E u t :
  http_get E (Some u) t
  = match requests_get E (requests t) u with
    | inr resp => Ok resp (with_requests (fun l => l ++ [u]) t)
    | inl e => Raise e (with_requests (fun l => l ++ [u]) t)
    end.
Proof.
  unfold http_get, bind, get_tree, modify_tree, lift. simpl.
  destruct (requests_get E (requests t) u); reflexivity.
Qed.

(** The navigator a successful fetch leaves behind. *)
Definition fetched_nav (resp : Response) (made : gmap string loc)
  (new_title : option string) (st : loc) (n : HALNavigator) : HALNavigator :=
  set_state (Some st)
    (set_title new_title (set_links (Some made) (set_response (Some resp) n))).

(** How [_GET] ends when it returns. *)
Lemma _GET_Ok_inv E self t t' :
  wf t -> _GET E self t = Ok tt t' ->
  exists n u resp links made new_title kvs h,
    navs t !! self = Some n /\ templated n = false /\ uri n = Some u
    /\ requests_get E (requests t) u = inr resp
    /\ links_section (body resp) = inr links
    /\ dom made = list_to_set (kept_rels links)
    /\ self_title links (title n) = inr new_title
    /\ alloc_items (filter state_filter (body resp)) (objs t) = (kvs, h)
    /\ requests t' = requests t ++ [u]
    /\ objs t' = h ++ [ODict kvs]
    /\ navs t' !! self = Some (fetched_nav resp made new_title (length h) n).
Proof.
  intros W. unfold _GET.
  destruct (navs t !! self) as [n|] eqn:Hn.
  2:{ unfold bind, get_nav. rewrite Hn. intros H. discriminate H. }
  rewrite (bind_Ok _ _ _ _ _ (get_nav_Ok _ _ _ Hn)).
  destruct (templated n) eqn:Ht; [intros H; discriminate H|].
  destruct (uri n) as [u|] eqn:Hu; [|intros H; discriminate H].
  rewrite bind_run, http_get_run.
  destruct (requests_get E (requests t) u) as [e | resp] eqn:Hreq;
    [intros H; discriminate H|].
  set (ta := with_requests (fun l => l ++ [u]) t).
  assert (Wa : wf ta) by now apply wf_with_requests.
  rewrite (bind_Ok _ _ _ _ _ (update_nav_ok self _ n ta Hn)).
  set (na := set_response (Some resp) n).
  set (tb := with_navs (fun l => <[self := na]> l) ta).
  assert (Hlt := lookup_lt_Some _ _ _ Hn).
  assert (Hnb : navs tb !! self = Some na)
    by (simpl; now apply list_lookup_insert_eq).
  assert (Wb : wf tb) by (apply (wf_update_fields ta self n na); auto).
  assert (Hcb : concrete self tb) by (exists na; auto).
  destruct (links_section (body resp)) as [e | links] eqn:Hls;
    [intros H; discriminate H|].
  simpl lift. rewrite bind_ret.
  destruct (make_navs_grows E self links ∅ tb Wb Hcb) as [(Gn & Go & Gr) Hdom].
  destruct (good_make_navs E self links ∅ tb Wb) as (Wc & Xc & Hall).
  { split; [assumption|]. intros r c Hr. rewrite lookup_empty in Hr. discriminate Hr. }
  rewrite bind_run.
  destruct (make_navs E self links ∅ tb) as [made tc | e tc];
    [|intros H; discriminate H].
  simpl in Gn, Go, Gr, Wc, Xc, Hall.
  rewrite dom_empty_L, (left_id_L ∅ _) in Hdom.
  assert (Hnc : navs tc !! self = Some na).
  { destruct Gn as [extra ->]. now apply lookup_app_l_Some. }
  rewrite (bind_Ok _ _ _ _ _ (update_nav_ok self _ na tc Hnc)).
  set (nd := set_links (Some made) na).
  set (td := with_navs (fun l => <[self := nd]> l) tc).
  assert (Hltc := lookup_lt_Some _ _ _ Hnc).
  assert (Hnd : navs td !! self = Some nd)
    by (simpl; now apply list_lookup_insert_eq).
  rewrite (bind_Ok _ _ _ _ _ (get_nav_Ok _ _ _ Hnd)).
  change (title nd) with (title n).
  destruct (self_title links (title n)) as [e | new_title] eqn:Hti;
    [intros H; discriminate H|].
  simpl lift. rewrite bind_ret.
  rewrite (bind_Ok _ _ _ _ _ (update_nav_ok self _ nd td Hnd)).
  set (ne := set_title new_title nd).
  set (te := with_navs (fun l => <[self := ne]> l) td).
  assert (Hne : navs te !! self = Some ne).
  { simpl. apply list_lookup_insert_eq. now rewrite length_insert. }
  unfold bind at 1. unfold get_tree.
  change (objs te) with (objs tc). rewrite Go. change (objs tb) with (objs t).
  destruct (alloc_items (filter state_filter (body resp)) (objs t)) as [kvs h] eqn:Hal.
  unfold bind, modify_tree, alloc_obj. simpl.
  unfold update_nav, bind, get_nav, modify_tree. simpl.
  rewrite list_lookup_insert_eq by (now rewrite length_insert).
  intros H. injection H as <-.
  exists n, u, resp, links, made, new_title, kvs, h.
  split; [first [exact Hn | reflexivity]|].
  split; [first [exact Ht | reflexivity]|].
  split; [first [exact Hu | reflexivity]|].
  split; [first [exact Hreq | reflexivity]|].
  split; [first [exact Hls | reflexivity]|].
  split; [exact Hdom|].
  split; [first [exact Hti | reflexivity]|].
  split; [first [exact Hal | reflexivity]|].
  split; [exact Gr|]. split; [reflexivity|].
  simpl. rewrite list_lookup_insert_eq; [reflexivity|].
  now rewrite !length_insert.
Qed.

(** A fetch sends one request, to the uri of the navigator.  When the
    transport fails the request was sent and nothing else happened: the
    navigator has no response, so the next access fetches again. *)
Theorem fetch_sends_one_request E self t n u :
  wf t -> navs t !! self = Some n -> templated n = false -> uri n = Some u ->
  match requests_get E (requests t) u with
  | inl e => _GET E self t = Raise e (with_requests (fun l => l ++ [u]) t)
  | inr _ => requests (tree_of (_GET E self t)) = requests t ++ [u]
  end.
Proof.
  intros W Hn Ht Hu.
  destruct (requests_get E (requests t) u) as [e | resp] eqn:Hreq.
  - unfold _GET. rewrite (bind_Ok _ _ _ _ _ (get_nav_Ok _ _ _ Hn)), Ht, Hu.
    rewrite bind_run, http_get_run, Hreq. reflexivity.
  - destruct (_GET E self t) as [[] t' | e t'] eqn:Hrun.
    + destruct (_GET_Ok_inv E self t t' W Hrun)
        as (n' & u' & _ & _ & _ & _ & _ & _ & Hn' & _ & Hu' & _ & _ & _ & _ & _ & Hr & _).
      simpl. rewrite Hr. congruence.
    + (* the request was answered and a later step raised *)
      simpl. revert Hrun. unfold _GET.
      rewrite (bind_Ok _ _ _ _ _ (get_nav_Ok _ _ _ Hn)), Ht, Hu.
      rewrite bind_run, http_get_run, Hreq.
      set (ta := with_requests (fun l => l ++ [u]) t).
      assert (Wa : wf ta) by now apply wf_with_requests.
      rewrite (bind_Ok _ _ _ _ _ (update_nav_ok self _ n ta Hn)).
      set (na := set_response (Some resp) n).
      set (tb := with_navs (fun l => <[self := na]> l) ta).
      assert (Hlt := lookup_lt_Some _ _ _ Hn).
      assert (Hnb : navs tb !! self = Some na)
        by (simpl; now apply list_lookup_insert_eq).
      assert (Wb : wf tb) by (apply (wf_update_fields ta self n na); auto).
      assert (Hcb : concrete self tb) by (exists na; auto).
      destruct (links_section (body resp)) as [e' | links];
        [intros H; injection H as <- <-; reflexivity|].
      simpl lift. rewrite bind_ret.
      destruct (make_navs_grows E self links ∅ tb Wb Hcb) as [(Gn & Go & Gr) _].
      rewrite bind_run.
      destruct (make_navs E self links ∅ tb) as [made tc | e' tc];
        [|intros H; injection H as <- <-; exact Gr].
      simpl in Gn, Go, Gr.
      assert (Hnc : navs tc !! self = Some na).
      { destruct Gn as [extra ->]. now apply lookup_app_l_Some. }
      rewrite (bind_Ok _ _ _ _ _ (update_nav_ok self _ na tc Hnc)).
      set (nd := set_links (Some made) na).
      set (td := with_navs (fun l => <[self := nd]> l) tc).
      assert (Hltc := lookup_lt_Some _ _ _ Hnc).
      assert (Hnd : navs td !! self = Some nd)
        by (simpl; now apply list_lookup_insert_eq).
      rewrite (bind_Ok _ _ _ _ _ (get_nav_Ok _ _ _ Hnd)).
      destruct (self_title links (title nd)) as [e' | new_title];
        [intros H; injection H as <- <-; exact Gr|].
      simpl lift. rewrite bind_ret.
      rewrite (bind_Ok _ _ _ _ _ (update_nav_ok self _ nd td Hnd)).
      unfold bind at 1. unfold get_tree.
      destruct (alloc_items _ _) as [kvs h].
      unfold bind, modify_tree, alloc_obj, update_nav, bind, get_nav, modify_tree.
      simpl. rewrite list_lookup_insert_eq by (now rewrite length_insert).
      intros H. discriminate H.
Qed.

Lemma fetch_sends_one_request_witness :
  requests (tree_of (_GET demo_env 1 demo_fetched))
  = requests demo_fetched ++ ["/page/2"].
Proof.
  assert (H := fetch_sends_one_request demo_env 1 demo_fetched
                 (mkNav "http://example.com/page/1" "example.com/page/1"
                        (Some "/page/2") None None "application/hal+json"
                        None None None None None false None (Some "next")
                        (Some false))
                 "/page/2" wf_demo_fetched).
  apply H; reflexivity.
Defined.

(** After a fetch the navigator has one link for every relation of the
    link section but [self], and none for [self]; every link is a
    navigator of the tree. *)
Theorem fetch_builds_links E self t t' :
  wf t -> _GET E self t = Ok tt t' ->
  exists n u resp links n' made,
    navs t !! self = Some n /\ uri n = Some u
    /\ requests_get E (requests t) u = inr resp
    /\ links_section (body resp) = inr links
    /\ navs t' !! self = Some n' /\ _links n' = Some made
    /\ (forall r, is_Some (made !! r) <-> r <> "self" /\ r ∈ links.*1)
    /\ (forall r c, made !! r = Some c -> is_Some (navs t' !! c)).
Proof.
  intros W Hrun.
  destruct (good__GET E self t W I) as (W' & _ & _). rewrite Hrun in W'. simpl in W'.
  destruct (_GET_Ok_inv E self t t' W Hrun)
    as (n & u & resp & links & made & new_title & kvs & h
        & Hn & _ & Hu & Hreq & Hls & Hdom & _ & _ & _ & _ & Hn').
  exists n, u, resp, links, (fetched_nav resp made new_title (length h) n), made.
  repeat (split; [assumption|]). split; [reflexivity|]. split.
  - intros r. rewrite <- elem_of_dom, Hdom, elem_of_list_to_set.
    unfold kept_rels. rewrite list_elem_of_filter. reflexivity.
  - intros r c Hr. apply lookup_lt_is_Some_2.
    exact (wf_links _ W' _ _ made r c Hn' eq_refl Hr).
Qed.

Lemma fetch_builds_links_witness :
  exists n' made,
    navs demo_fetched !! 0 = Some n' /\ _links n' = Some made
    /\ made !! "self" = None /\ made !! "next" = Some 1
    /\ made !! "orders" = Some 2 /\ made !! "search" = Some 3.
Proof.
  destruct (fetch_builds_links demo_env 0 demo_root demo_fetched wf_demo_root)
    as (n & u & resp & links & n' & made & _ & _ & _ & _ & Hn' & Hl & _ & _).
  - vm_compute. reflexivity.
  - exists n', made. split; [exact Hn'|]. split; [exact Hl|].
    assert (Hm : Some made = _links
                   (default n' (navs demo_fetched !! 0))) by (rewrite Hn'; now symmetry).
    vm_compute in Hm. injection Hm as ->.
    repeat split; vm_compute; reflexivity.
Defined.

(** After a fetch the navigator holds the response that was served:
    [status] gives its code and reason without a request, and the title is
    the one of the [self] link when the document has one. *)
Theorem fetch_records_response E self t t' :
  wf t -> _GET E self t = Ok tt t' ->
  exists n u resp links n',
    navs t !! self = Some n /\ uri n = Some u
    /\ requests_get E (requests t) u = inr resp
    /\ links_section (body resp) = inr links
    /\ navs t' !! self = Some n' /\ response n' = Some resp
    /\ halnav.status self t' = Ok (Some (status_code resp, reason resp)) t'
    /\ self_title links (title n) = inr (title n')
    /\ name n' = name n /\ uri n' = uri n /\ root n' = root n.
Proof.
  intros W Hrun.
  destruct (_GET_Ok_inv E self t t' W Hrun)
    as (n & u & resp & links & made & new_title & kvs & h
        & Hn & _ & Hu & Hreq & Hls & _ & Hti & _ & _ & _ & Hn').
  exists n, u, resp, links, (fetched_nav resp made new_title (length h) n).
  repeat (split; [assumption|]). split; [reflexivity|]. split.
  - unfold halnav.status. rewrite (bind_Ok _ _ _ _ _ (get_nav_Ok _ _ _ Hn')). reflexivity.
  - split; [exact Hti|]. repeat split.
Qed.

Lemma fetch_records_response_witness :
  halnav.status 0 demo_fetched = Ok (Some (200%Z, "OK")) demo_fetched.
Proof.
  destruct (fetch_records_response demo_env 0 demo_root demo_fetched wf_demo_root)
    as (n & u & resp & links & n' & Hn & Hu & Hreq & _ & _ & _ & Hst & _).
  - vm_compute. reflexivity.
  - vm_compute in Hn. injection Hn as <-. simpl in Hu. injection Hu as <-.
    vm_compute in Hreq. injection Hreq as <-. exact Hst.
Defined.

(** The fetch-first accessors fetch once: after [links] returned, a second
    [links] returns the same links and leaves the tree, and with it the
    list of the requests sent, as it is; the same holds of everything
    that fetches first. *)
Theorem links_fetches_once E p t ls t1 :
  wf t -> links E p t = Ok ls t1 ->
  links E p t1 = Ok ls t1
  /\ requests (tree_of (links E p t1)) = requests t1
  /\ forall A (fn : M A), autofetch E p fn t1 = fn t1.
Proof.
  intros W L.
  destruct (links_inv E p t ls t1 W L) as (W1 & (n1 & Hn1 & Hr1 & Hl1) & _).
  assert (L1 : links E p t1 = Ok ls t1)
    by (rewrite <- Hl1; now apply links_fetched).
  split; [exact L1|]. split; [now rewrite L1|].
  intros A fn. now apply (autofetch_fetched E p fn t1 n1).
Qed.

Lemma links_fetches_once_witness :
  exists ls, links demo_env 0 demo_root = Ok ls demo_fetched
             /\ links demo_env 0 demo_fetched = Ok ls demo_fetched
             /\ requests demo_fetched = ["http://example.com/page/1"].
Proof.
  eexists. split; [vm_compute; reflexivity|]. split; [|reflexivity].
  eapply (links_fetches_once demo_env 0 demo_root _ demo_fetched wf_demo_root).
  vm_compute. reflexivity.
Defined.

(** ** The state of a fetched navigator *)

(** The depth of a document: how far [view] has to look. *)
Fixpoint depth (j : json) : nat :=
  match j with
  | JAtom _ => 1
  | JList l =>
      S ((fix go (l : list json) : nat :=
            match l with
            | [] => 0
            | x :: l' => Nat.max (depth x) (go l')
            end) l)
  | JDict d =>
      S ((fix go (d : list (string * json)) : nat :=
            match d with
            | [] => 0
            | (_, x) :: d' => Nat.max (depth x) (go d')
            end) d)
  end.

(** Objects added to the store do not show in the values built before. *)
Lemma view_prefix h k fuel :
  closed h ->
  forall v, value_below (length h) v -> view fuel (h ++ k) v = view fuel h v.
Proof.
  intros Hcl. induction fuel as [|fuel IH]; intros v Hv; [reflexivity|].
  destruct v as [a | r]; [reflexivity|]. simpl in Hv. simpl.
  rewrite lookup_app_l by assumption.
  destruct (h !! r) as [[elems | items]|] eqn:Hr; [| |reflexivity].
  - f_equal. apply Forall_mapM_ext.
    assert (Hb := Hcl _ _ Hr). simpl in Hb.
    eapply Forall_impl; [exact Hb|]. intros x Hx. apply IH.
    eapply value_below_mono; [|exact Hx]. lia.
  - f_equal. apply Forall_mapM_ext.
    assert (Hb := Hcl _ _ Hr). simpl in Hb.
    eapply Forall_impl; [exact Hb|]. intros x Hx. simpl. f_equal. apply IH.
    eapply value_below_mono; [|exact Hx]. lia.
Qed.

(** A document that was built in the store reads back as it was. *)
Lemma view_alloc_json :
  forall j h fuel, closed h -> depth j <= fuel ->
    view fuel (alloc_json j h).2 (alloc_json j h).1 = Some j.
Proof.
  fix view_alloc_json 1.
  intros j. destruct j as [a | l | d]; intros h fuel Hc Hd.
  - destruct fuel; [simpl in Hd; lia | reflexivity].
  - destruct fuel as [|fuel]; [simpl in Hd; lia|].
    simpl in Hd. apply le_S_n in Hd. revert Hd.
    match goal with |- context [?g l <= fuel] => set (dgo := g) end.
    intros Hd. simpl alloc_json.
    match goal with |- context [?g l h] => set (go := g) end.
    assert (Hgo : forall h, closed h -> dgo l <= fuel ->
              closed (go l h).2 /\ h `prefix_of` (go l h).2
              /\ Forall (value_below (length (go l h).2)) (go l h).1
              /\ forall k, mapM (view fuel ((go l h).2 ++ k)) (go l h).1 = Some l).
    { clear h Hc Hd. induction l as [|x l IH]; intros h Hc Hd; simpl.
      - split; [assumption|]. split; [reflexivity|]. split; [constructor|].
        intros k; reflexivity.
      - simpl in Hd.
        destruct (alloc_json_closed x h Hc) as [Hc1 Hv].
        assert (Hp1 := alloc_json_prefix x h).
        assert (Hx := view_alloc_json x h fuel Hc ltac:(lia)).
        destruct (alloc_json x h) as [v h1]. simpl in *.
        destruct (IH h1 Hc1 ltac:(lia)) as (Hc2 & Hp2 & Hvs & Hm).
        destruct (go l h1) as [vs h2]. simpl in *.
        split; [assumption|]. split; [etransitivity; eassumption|].
        split.
        + constructor; [|assumption].
          eapply value_below_mono; [|eassumption]. now apply prefix_length.
        + intros k. destruct Hp2 as [k1 ->].
          rewrite <- app_assoc, (view_prefix h1) by assumption.
          rewrite Hx. simpl. rewrite app_assoc, Hm. reflexivity. }
    destruct (Hgo h Hc Hd) as (Hc' & _ & Hvs & Hm).
    destruct (go l h) as [vs h']. simpl in *.
    rewrite snoc_lookup_last. rewrite Hm. reflexivity.
  - destruct fuel as [|fuel]; [simpl in Hd; lia|].
    simpl in Hd. apply le_S_n in Hd. revert Hd.
    match goal with |- context [?g d <= fuel] => set (dgo := g) end.
    intros Hd. simpl alloc_json.
    match goal with |- context [?g d h] => set (go := g) end.
    assert (Hgo : forall h, closed h -> dgo d <= fuel ->
              closed (go d h).2 /\ h `prefix_of` (go d h).2
              /\ Forall (fun kv => value_below (length (go d h).2) kv.2) (go d h).1
              /\ forall k, mapM (fun kv => pair kv.1 <$> view fuel ((go d h).2 ++ k) kv.2)
                                (go d h).1 = Some d).
    { clear h Hc Hd. induction d as [|[key x] d IH]; intros h Hc Hd; simpl.
      - split; [assumption|]. split; [reflexivity|]. split; [constructor|].
        intros k; reflexivity.
      - simpl in Hd.
        destruct (alloc_json_closed x h Hc) as [Hc1 Hv].
        assert (Hp1 := alloc_json_prefix x h).
        assert (Hx := view_alloc_json x h fuel Hc ltac:(lia)).
        destruct (alloc_json x h) as [v h1]. simpl in *.
        destruct (IH h1 Hc1 ltac:(lia)) as (Hc2 & Hp2 & Hvs & Hm).
        destruct (go d h1) as [kvs h2]. simpl in *.
        split; [assumption|]. split; [etransitivity; eassumption|].
        split.
        + constructor; [|assumption]. simpl.
          eapply value_below_mono; [|eassumption]. now apply prefix_length.
        + intros k. destruct Hp2 as [k1 ->].
          rewrite <- app_assoc, (view_prefix h1) by assumption.
          rewrite Hx. simpl. rewrite app_assoc, Hm. reflexivity. }
    destruct (Hgo h Hc Hd) as (Hc' & _ & Hvs & Hm).
    destruct (go d h) as [kvs h']. simpl in *.
    rewrite snoc_lookup_last. rewrite Hm. reflexivity.
Qed.
